(** * libevdev measurement tools: mouse resolution probe and touchpad edge detector

    A shallow embedding of the two command-line tools of the repository
    and the properties of their event handling.

    - [MouseDpiTool] embeds the mouse tool (relative-X distance and
      event-frequency estimation).
    - [TouchpadEdgeDetector] embeds [tools/touchpad-edge-detector.c]
      (running minimum and maximum of the absolute axes).

    Modelling conventions.
    - [int] is a 32-bit two's complement integer, [uint64_t] a 64-bit
      unsigned one; both are values in [Z] with the wrap-around written
      out ([int_wrap], [uint64_wrap]).
    - The timestamps kept in the window are [uint64_t] microsecond counts
      converted to [double] ([double_of_uint64]: counts below 2^53 are
      kept, larger ones are rounded to 53 significant bits).  Every
      integer below 2^53 is a [double], and comparison and subtraction
      are exact on them, so the window is a list of integers; what is
      proved of the estimate taken from the events handled is stated for
      timestamps below 2^53.  The one
      quotient the estimator computes is kept as the exact rational whose
      correctly rounded value the C division returns.
    - A cell of automatic storage that was never written is [None]; what is
      computed from such a cell is [None] as well.
    - The numeric values of the event codes and of the libevdev read
      statuses come from headers outside the modelled sources; they are
      taken as a parameter ([evdev_codes]) and instantiated with the Linux
      values for evaluation ([linux_codes]). *)

From Stdlib Require Import ZArith QArith List Lia Ascii.
From stdpp Require Import base list numbers strings.

Local Open Scope Z_scope.

(** ** C integer types *)

Definition INT_MAX : Z := 2147483647.
Definition INT_MIN : Z := -2147483648.

(** Reduction of a mathematical integer to [int]. *)
Definition int_wrap (z : Z) : Z := (z + 2 ^ 31) `mod` 2 ^ 32 - 2 ^ 31.

(** Reduction to [uint64_t]. *)
Definition uint64_wrap (z : Z) : Z := z `mod` 2 ^ 64.

Definition int_range (z : Z) : Prop := INT_MIN <= z <= INT_MAX.

(** Conversion of a [uint64_t] to [double], as the assignment of a
    [uint64_t] to a [double] does it: round to nearest, ties to even.  A
    [double] has 53 significant bits, so a count below 2^53 is kept; of a
    larger one the 53 leading bits [q] are kept and the [e] dropped bits
    [r] decide the rounding. *)
Definition double_of_uint64 (z : Z) : Z :=
  if z <? 2 ^ 53 then z
  else
    let e := Z.log2 z - 52 in
    let q := z / 2 ^ e in
    let r := z `mod` 2 ^ e in
    let half := 2 ^ (e - 1) in
    let q' := if (half <? r) || ((r =? half) && Z.odd q) then q + 1 else q in
    q' * 2 ^ e.

(** [abs] of <stdlib.h> on [int]. *)
Definition abs (j : Z) : Z := int_wrap (Z.abs j).

(** [#define min(a, b) (((a) < (b)) ? (a) : (b))] *)
Definition min (a b : Z) : Z := if a <? b then a else b.

(** [#define max(a, b) (((a) > (b)) ? (a) : (b))] *)
Definition max (a b : Z) : Z := if a >? b then a else b.

(** The same macro at type [double]; an indeterminate operand makes the
    result indeterminate. *)
Definition dmax (a b : option Q) : option Q :=
  match a, b with
  | Some x, Some y => Some (if Qle_bool x y then y else x)
  | _, _ => None
  end.

(** ** The kernel and libevdev interface *)

(** Numeric values of the constants the tools use, with the facts about
    them that the C compiler and the headers guarantee (distinct [case]
    labels, distinct event types). *)
Class evdev_codes := {
  EV_SYN : Z;
  EV_REL : Z;
  EV_ABS : Z;
  REL_X : Z;
  ABS_X : Z;
  ABS_Y : Z;
  ABS_MT_POSITION_X : Z;
  ABS_MT_POSITION_Y : Z;
  LIBEVDEV_READ_STATUS_SUCCESS : Z;
  LIBEVDEV_READ_STATUS_SYNC : Z;
  EAGAIN : Z;
  EV_SYN_neq_EV_REL : EV_SYN <> EV_REL;
  EV_SYN_neq_EV_ABS : EV_SYN <> EV_ABS;
  ABS_X_neq_ABS_Y : ABS_X <> ABS_Y;
  ABS_X_neq_ABS_MT_POSITION_Y : ABS_X <> ABS_MT_POSITION_Y;
  ABS_MT_POSITION_X_neq_ABS_Y : ABS_MT_POSITION_X <> ABS_Y;
  ABS_MT_POSITION_X_neq_ABS_MT_POSITION_Y :
    ABS_MT_POSITION_X <> ABS_MT_POSITION_Y
}.

(** The values of <linux/input-event-codes.h>, <libevdev/libevdev.h> and
    <errno.h> on Linux. *)
#[export] Instance linux_codes : evdev_codes.
Proof.
  refine {|
    EV_SYN := 0;
    EV_REL := 2;
    EV_ABS := 3;
    REL_X := 0;
    ABS_X := 0;
    ABS_Y := 1;
    ABS_MT_POSITION_X := 53;
    ABS_MT_POSITION_Y := 54;
    LIBEVDEV_READ_STATUS_SUCCESS := 0;
    LIBEVDEV_READ_STATUS_SYNC := 1;
    EAGAIN := 11
  |}; discriminate.
Defined.

(** [struct timeval] *)
Record timeval := { tv_sec : Z; tv_usec : Z }.

(** [struct input_event] *)
Record input_event := {
  time : timeval;
  type : Z;
  code : Z;
  value : Z
}.

(** ** [qsort] of <stdlib.h>

    The library routine sorts the first [nmemb] cells of the array in
    ascending order of [compar].  It is modelled by insertion: the arrays
    sorted here hold numbers, on which the comparison function is a total
    order, so every sorting routine produces the same array. *)

Fixpoint qsort_insert {A : Type} (compar : A -> A -> Z) (x : A) (l : list A)
  : list A :=
  match l with
  | [] => [x]
  | y :: l' =>
      if compar x y <=? 0 then x :: l else y :: qsort_insert compar x l'
  end.

Definition qsort_cells {A : Type} (compar : A -> A -> Z) (l : list A)
  : list A :=
  foldr (qsort_insert compar) [] l.

Definition qsort {A : Type} (base : list A) (nmemb : nat)
    (compar : A -> A -> Z) : list A :=
  qsort_cells compar (take nmemb base) ++ drop nmemb base.

(** ** The wait loop, shared by both tools

    The two [mainloop] functions have the same text up to the type of the
    measurement state.  A run of the loop is driven by the results of the
    system and library calls it makes, in order. *)

Inductive sysres :=
| PollRet (ret : Z) (revents1 : Z)
    (* poll(fds, 2, -1) returned [ret]; fds[1].revents is [revents1] *)
| NextEvent (rc : Z) (ev : input_event)
    (* libevdev_next_event returned [rc] and filled in [ev] *).

Inductive loop_state (S : Type) :=
| AtPoll (s : S)          (* blocked in poll() *)
| AtRead (s : S)          (* about to call libevdev_next_event *)
| Returned (rc : Z) (s : S).
Arguments AtPoll {S} s.
Arguments AtRead {S} s.
Arguments Returned {S} rc s.

Section Mainloop.
Context `{codes : evdev_codes}.
Context {St : Type} (handle_event : St -> input_event -> Z * St).

(** One call of the loop: [None] when the script does not answer the
    call the loop is making. *)
Definition mainloop_step (l : loop_state St) (r : sysres)
  : option (loop_state St) :=
  match l, r with
  | AtPoll s, PollRet ret revents1 =>
      if ret =? 0 then Some (Returned 0 s)
      else if negb (revents1 =? 0) then Some (Returned 0 s)
      else Some (AtRead s)
  | AtRead s, NextEvent rc ev =>
      if rc =? LIBEVDEV_READ_STATUS_SYNC then Some (Returned 1 s)
      else if negb (rc =? - EAGAIN) && (rc <? 0) then Some (Returned 1 s)
      else
        let s' := if rc =? LIBEVDEV_READ_STATUS_SUCCESS
                  then snd (handle_event s ev) else s in
        if negb (rc =? - EAGAIN) then Some (AtRead s') else Some (AtPoll s')
  | Returned rc s, _ => Some (Returned rc s)
  | _, _ => None
  end.

Fixpoint mainloop_run (l : loop_state St) (script : list sysres)
  : option (loop_state St) :=
  match script with
  | [] => Some l
  | r :: script' =>
      match mainloop_step l r with
      | Some l' => mainloop_run l' script'
      | None => None
      end
  end.

(** [mainloop(dev, m)] on a device whose calls answer as [script]:
    the returned [int] and the final state, or [None] while the loop
    is still waiting when the script ends. *)
Definition mainloop (script : list sysres) (s : St) : option (Z * St) :=
  match mainloop_run (AtPoll s) script with
  | Some (Returned rc s') => Some (rc, s')
  | _ => None
  end.
End Mainloop.

(** ** The process around the loop

    What [main] sees of the outside: the results of opening and probing
    the device, and the answers to the calls of the wait loop. *)

Record device := {
  open_fd : Z;                      (* open(path, O_RDONLY|O_NONBLOCK) *)
  new_from_fd_rc : Z;               (* libevdev_new_from_fd(fd, &dev) *)
  grab_rc : Z;                      (* libevdev_grab(dev, LIBEVDEV_GRAB) *)
  has_event_code : Z -> Z -> bool;  (* libevdev_has_event_code(dev, t, c) *)
  script : list sysres              (* the calls made by mainloop *)
}.

(** The calls of [main] that matter for the device's life cycle, in the
    order they are made. *)
Inductive call :=
| c_usage
| c_open (fd : Z)
| c_libevdev_new_from_fd (rc : Z)
| c_libevdev_grab (rc : Z)
| c_libevdev_ungrab
| c_stderr (msg : string)
| c_stdout (msg : string)
| c_mainloop
| c_summary (distance : Z)
| c_udev_rule (left right top bottom : Z)
| c_libevdev_free
| c_close (fd : Z).

(** A piece of [main]: it goes on with a value, leaves [main] with an exit
    status through a [return] statement, or never comes back from the
    wait loop. *)
Inductive outcome (A : Type) :=
| Continue (a : A) (log : list call)
| Return (status : Z) (log : list call)
| Hang (log : list call).
Arguments Continue {A} a log.
Arguments Return {A} status log.
Arguments Hang {A} log.

Definition outcome_log {A : Type} (o : outcome A) : list call :=
  match o with
  | Continue _ log | Return _ log | Hang log => log
  end.

Definition outcome_prepend {A : Type} (l : list call) (o : outcome A)
  : outcome A :=
  match o with
  | Continue a log => Continue a (l ++ log)
  | Return status log => Return status (l ++ log)
  | Hang log => Hang (l ++ log)
  end.

#[export] Instance outcome_ret : MRet outcome := fun A a => Continue a [].
#[export] Instance outcome_bind : MBind outcome := fun A B k o =>
  match o with
  | Continue a log => outcome_prepend log (k a)
  | Return status log => Return status log
  | Hang log => Hang log
  end.

Definition do_call (c : call) : outcome unit := Continue () [c].
Definition return_ {A : Type} (status : Z) : outcome A := Return status [].

(** The exit status [main] returns, when it returns. *)
Definition exit_status (o : outcome Z) : option Z :=
  match o with
  | Continue status _ | Return status _ => Some status
  | Hang _ => None
  end.

(** Resources still held when [main] returns. *)
Definition opened (log : list call) : bool :=
  existsb (fun c => match c with c_open fd => 0 <=? fd | _ => false end) log.
Definition closed (log : list call) : bool :=
  existsb (fun c => match c with c_close _ => true | _ => false end) log.
Definition allocated (log : list call) : bool :=
  existsb (fun c => match c with
                    | c_libevdev_new_from_fd rc => rc =? 0
                    | _ => false end) log.
Definition freed (log : list call) : bool :=
  existsb (fun c => match c with c_libevdev_free => true | _ => false end) log.

Definition called_mainloop (log : list call) : bool :=
  existsb (fun c => match c with c_mainloop => true | _ => false end) log.

Definition fd_leaked (log : list call) : bool := opened log && negb (closed log).
Definition handle_leaked (log : list call) : bool :=
  allocated log && negb (freed log).

(** [path[0] == '-'] on a C string. *)
Definition starts_with_dash (path : string) : bool :=
  match path with
  | String c _ => bool_decide (c = "-"%char)
  | EmptyString => false
  end.

(** * The mouse tool *)

Module MouseDpiTool.

(** [struct measurements] *)
Record measurements := {
  distance : Z;            (* int *)
  frequency : option Q;    (* double *)
  us : Z                   (* uint64_t *)
}.

(** One progress line written by [print_current_values]: the arguments of
    its [printf]. *)
Record progress_line := {
  shown_distance : Z;
  shown_frequency : option Q;
  shown_status : ascii
}.

(** The measurement struct owned by [main] together with the [static]
    variables of [handle_event] and of [print_current_values], and what
    has been written to standard output so far. *)
Record state := {
  m : measurements;
  event_times : list Z;
  event_times_index : nat;
  event_list_valid : bool;
  progress : Z;
  stdout : list progress_line
}.

Definition tv2us (tv : timeval) : Z :=
  uint64_wrap (tv_sec tv * 1000000 + tv_usec tv).

Definition EVENT_SIZ : nat := 32.

(** The comparison function handed to [qsort], on the two doubles it
    reads through its arguments. *)
Definition double_cmp (xx yy : Z) : Z :=
  if xx <? yy then -1
  else if xx >? yy then 1
  else 0.

(** The same on array cells.  [qsort] is handed the written cells only. *)
Definition double_cmp_cells (x y : option Z) : Z :=
  match x, y with
  | Some xx, Some yy => double_cmp xx yy
  | _, _ => 0
  end.

(** The body of the [for] loop of [get_frequency], on the local array
    [differences] and the counter [d_index]. *)
Definition get_frequency_body (event_times : list Z)
    (acc : list (option Z) * nat) (i : nat) : list (option Z) * nat :=
  let '(differences, d_index) := acc in
  let next_index := ((i + 1) `mod` EVENT_SIZ)%nat in
  if (event_times !!! i <? event_times !!! next_index)
     && (d_index <? EVENT_SIZ - 1)%nat
  then (<[d_index := Some (event_times !!! next_index - event_times !!! i)]>
          differences,
        S d_index)
  else (differences, d_index).

(** The array and the counter when the loop is left.  The array starts
    out with [EVENT_SIZ - 1] cells, none of them written. *)
Definition get_frequency_loop (event_times : list Z)
  : list (option Z) * nat :=
  foldl (get_frequency_body event_times)
        (replicate (EVENT_SIZ - 1) None, 0%nat)
        (seq 0 EVENT_SIZ).

Definition get_frequency (event_times : list Z) : option Q :=
  let '(differences, d_index) := get_frequency_loop event_times in
  let differences := qsort differences d_index double_cmp_cells in
  match differences !! (EVENT_SIZ / 2)%nat with
  | Some (Some d) => Some (1000000 / inject_Z d)%Q
  | _ => None
  end.

Definition backslash : ascii := ascii_of_nat 92.

Definition print_current_values (s : state) : Z * state :=
  let status :=
    if progress s =? 0 then "|"%char
    else if progress s =? 1 then "/"%char
    else if progress s =? 2 then "-"%char
    else if progress s =? 3 then backslash
    else "?"%char in
  (0,
   {| m := m s;
      event_times := event_times s;
      event_times_index := event_times_index s;
      event_list_valid := event_list_valid s;
      progress := Z.rem (progress s + 1) 4;
      stdout := stdout s ++
        [ {| shown_distance := abs (distance (m s));
             shown_frequency := frequency (m s);
             shown_status := status |} ] |}).

Section WithCodes.
Context `{codes : evdev_codes}.

Definition handle_event (s : state) (ev : input_event) : Z * state :=
  if type ev =? EV_SYN then
    let idle_reset := 3000000 in
    let last_us := us (m s) in
    let now := tv2us (time ev) in
    if uint64_wrap (last_us + idle_reset) <? now then
      (0,
       {| m := {| distance := 0; frequency := Some 0%Q; us := now |};
          event_times := event_times s;
          event_times_index := 0;
          event_list_valid := false;
          progress := progress s;
          stdout := stdout s |})
    else
      let times :=
        <[event_times_index s := double_of_uint64 now]> (event_times s) in
      let index := S (event_times_index s) in
      let wrapped := (index =? EVENT_SIZ)%nat in
      let valid := if wrapped then true else event_list_valid s in
      let index := if wrapped then 0%nat else index in
      let freq :=
        if valid then dmax (get_frequency times) (frequency (m s))
        else frequency (m s) in
      print_current_values
        {| m := {| distance := distance (m s); frequency := freq;
                   us := now |};
           event_times := times;
           event_times_index := index;
           event_list_valid := valid;
           progress := progress s;
           stdout := stdout s |}
  else if negb (type ev =? EV_REL) then (0, s)
  else if code ev =? REL_X then
    (0,
     {| m := {| distance := int_wrap (distance (m s) + value ev);
                frequency := frequency (m s);
                us := us (m s) |};
        event_times := event_times s;
        event_times_index := event_times_index s;
        event_list_valid := event_list_valid s;
        progress := progress s;
        stdout := stdout s |})
  else (0, s).

(** The events the wait loop hands to [handle_event], one after the
    other. *)
Definition handle_events (s : state) (evs : list input_event) : state :=
  foldl (fun s ev => snd (handle_event s ev)) s evs.
End WithCodes.

(** The state [main] starts from: [measurements = {0, 0, 0}], and the
    zero-initialised [static] variables. *)
Definition initial : state :=
  {| m := {| distance := 0; frequency := Some 0%Q; us := 0 |};
     event_times := replicate EVENT_SIZ 0;
     event_times_index := 0;
     event_list_valid := false;
     progress := 0;
     stdout := [] |}.

(** What [print_summary] prints: the distance (twice, with [%d]) and one
    table row per resolution, whose inch column is the distance divided
    by the resolution. *)
Record summary := {
  sum_distance : Z;
  sum_rows : list (Q * Z)
}.

(** [for (res = 400; res <= 2500; res += 200)] *)
Fixpoint summary_rows (fuel : nat) (res : Z) (distance : Z) : list (Q * Z) :=
  match fuel with
  | O => []
  | S fuel' =>
      if res <=? 2500
      then ((inject_Z distance / inject_Z res)%Q, res)
             :: summary_rows fuel' (res + 200) distance
      else []
  end.

Definition print_summary (ms : measurements) : measurements * summary :=
  let ms' := {| distance := abs (distance ms);
                frequency := frequency ms;
                us := us ms |} in
  (ms', {| sum_distance := distance ms';
           sum_rows := summary_rows 2500 400 (distance ms') |}).

Section Main.
Context `{codes : evdev_codes}.

Definition usage : outcome Z := do_call c_usage ;; mret 1.

Definition run_mainloop (d : device) (s : state) : outcome (Z * state) :=
  do_call c_mainloop ;;
  match mainloop handle_event (script d) s with
  | Some r => mret r
  | None => Hang []
  end.

Definition main (argv : list string) (d : device) : outcome Z :=
  if (Z.of_nat (length argv) <? 2) then usage ≫= return_
  else
    let path := default EmptyString (argv !! 1%nat) in
    if starts_with_dash path then usage ≫= return_
    else
      do_call (c_open (open_fd d)) ;;
      if open_fd d <? 0 then
        do_call (c_stderr "Error opening the device") ;; return_ 1
      else
        do_call (c_libevdev_new_from_fd (new_from_fd_rc d)) ;;
        if negb (new_from_fd_rc d =? 0) then
          do_call (c_stderr "Error fetching the device info") ;; return_ 1
        else
          do_call (c_libevdev_grab (grab_rc d)) ;;
          if negb (grab_rc d =? 0) then
            do_call (c_stderr "Error: cannot grab the device") ;;
            do_call (c_stderr "Use fuser -v to find processes") ;;
            return_ 1
          else
            do_call c_libevdev_ungrab ;;
            do_call (c_stdout "Mouse on path") ;;
            '(rc, s) ← run_mainloop d initial ;
            let '(ms, sm) := print_summary (m s) in
            do_call (c_summary (sum_distance sm)) ;;
            do_call (c_stdout "Entry for hwdb match") ;;
            do_call c_libevdev_free ;;
            do_call (c_close (open_fd d)) ;;
            return_ rc.
End Main.

End MouseDpiTool.

(** * The touchpad tool

    [tools/touchpad-edge-detector.c], the translation unit that checks for
    the absolute axes before it measures. *)

Module TouchpadEdgeDetector.

(** [struct dimensions] *)
Record dimensions := {
  top : Z;
  bottom : Z;
  left : Z;
  right : Z
}.

Record progress_line := {
  shown : dimensions;
  shown_status : ascii
}.

(** The struct owned by [main], the [static] counter of
    [print_current_values] and the progress lines written so far. *)
Record state := {
  dim : dimensions;
  progress : Z;
  stdout : list progress_line
}.

Definition EXIT_FAILURE : Z := 1.

Definition print_current_values (s : state) : Z * state :=
  let status :=
    if progress s =? 0 then "|"%char
    else if progress s =? 1 then "/"%char
    else if progress s =? 2 then "-"%char
    else if progress s =? 3 then ascii_of_nat 92
    else ascii_of_nat 0 in
  (0,
   {| dim := dim s;
      progress := Z.rem (progress s + 1) 4;
      stdout := stdout s ++ [ {| shown := dim s; shown_status := status |} ] |}).

Section WithCodes.
Context `{codes : evdev_codes}.

Definition handle_event (s : state) (ev : input_event) : Z * state :=
  if type ev =? EV_SYN then print_current_values s
  else if negb (type ev =? EV_ABS) then (0, s)
  else if (code ev =? ABS_X) || (code ev =? ABS_MT_POSITION_X) then
    (0,
     {| dim := {| top := top (dim s);
                  bottom := bottom (dim s);
                  left := min (left (dim s)) (value ev);
                  right := max (right (dim s)) (value ev) |};
        progress := progress s;
        stdout := stdout s |})
  else if (code ev =? ABS_Y) || (code ev =? ABS_MT_POSITION_Y) then
    (0,
     {| dim := {| top := min (top (dim s)) (value ev);
                  bottom := max (bottom (dim s)) (value ev);
                  left := left (dim s);
                  right := right (dim s) |};
        progress := progress s;
        stdout := stdout s |})
  else (0, s).

Definition handle_events (s : state) (evs : list input_event) : state :=
  foldl (fun s ev => snd (handle_event s ev)) s evs.

(** The assignments of [main] before the wait loop. *)
Definition initial : state :=
  {| dim := {| top := INT_MAX; bottom := INT_MIN;
               left := INT_MAX; right := INT_MIN |};
     progress := 0;
     stdout := [] |}.

Definition usage : outcome Z := do_call c_usage ;; mret 1.

Definition run_mainloop (d : device) (s : state) : outcome (Z * state) :=
  do_call c_mainloop ;;
  match mainloop handle_event (script d) s with
  | Some r => mret r
  | None => Hang []
  end.

Definition print_udev_override_rule (dm : dimensions) : outcome unit :=
  do_call (c_udev_rule (left dm) (right dm) (top dm) (bottom dm)).

(** The statements after the label [out]. *)
Definition out (d : device) (rc : Z) : outcome Z :=
  do_call c_libevdev_free ;;
  do_call (c_close (open_fd d)) ;;
  return_ rc.

Definition main (argv : list string) (d : device) : outcome Z :=
  if (Z.of_nat (length argv) <? 2) then usage ≫= return_
  else
    let path := default EmptyString (argv !! 1%nat) in
    if starts_with_dash path then usage ≫= return_
    else
      do_call (c_open (open_fd d)) ;;
      if open_fd d <? 0 then
        do_call (c_stderr "Error opening the device") ;; return_ 1
      else
        do_call (c_libevdev_new_from_fd (new_from_fd_rc d)) ;;
        if negb (new_from_fd_rc d =? 0) then
          do_call (c_stderr "Error fetching the device info") ;; return_ 1
        else
          do_call (c_libevdev_grab (grab_rc d)) ;;
          if negb (grab_rc d =? 0) then
            do_call (c_stderr "Error: cannot grab the device") ;;
            do_call (c_stderr "Use fuser -v to find processes") ;;
            return_ 1
          else
            do_call c_libevdev_ungrab ;;
            if negb (has_event_code d EV_ABS ABS_X)
               || negb (has_event_code d EV_ABS ABS_Y) then
              do_call (c_stderr "Error: this device does not have abs axes") ;;
              out d EXIT_FAILURE
            else
              do_call (c_stdout "Touchpad on path") ;;
              '(rc, s) ← run_mainloop d initial ;
              print_udev_override_rule (dim s) ;;
              out d rc.
End WithCodes.

End TouchpadEdgeDetector.

(** * Specification-side definitions *)

(** ** The frequency estimator *)

Section EstimatorSpec.
Import MouseDpiTool.

(** The forward difference at position [i] of the ring, present when the
    next timestamp is strictly greater than the current one. *)
Definition forward_difference (w : list Z) (i : nat) : option Z :=
  let j := ((i + 1) `mod` EVENT_SIZ)%nat in
  if w !!! i <? w !!! j then Some (w !!! j - w !!! i) else None.

(** The forward differences at the first [k] positions, in order. *)
Definition forward_differences (w : list Z) (k : nat) : list Z :=
  omap (forward_difference w) (seq 0 k).

Definition ring_differences (w : list Z) : list Z :=
  forward_differences w EVENT_SIZ.

(** The median of a sorted list: the middle element, or the mean of the
    two middle elements when the length is even. *)
Definition median (l : list Z) : option Q :=
  let n := length l in
  if Nat.odd n then inject_Z <$> l !! (n / 2)%nat
  else
    match l !! (n / 2 - 1)%nat, l !! (n / 2)%nat with
    | Some a, Some b => Some ((inject_Z a + inject_Z b) / 2)%Q
    | _, _ => None
    end.

(** The estimate in the words of the specification: 1,000,000 divided
    by the median of the sorted differences. *)
Definition median_frequency (w : list Z) : option Q :=
  (fun md => (1000000 / md)%Q)
    <$> median (qsort_cells double_cmp (ring_differences w)).

(** [R] holds between every element and its successor. *)
Fixpoint adjacent_all (R : Z -> Z -> bool) (w : list Z) : bool :=
  match w with
  | x :: (y :: _) as w' => R x y && adjacent_all R w'
  | _ => true
  end.

Definition strictly_increasing (w : list Z) : bool := adjacent_all Z.ltb w.

(** Consecutive timestamps are [delta] apart. *)
Definition spaced_by (delta : Z) (w : list Z) : bool :=
  adjacent_all (fun x y => y - x =? delta) w.

(** Each of the first 31 timestamps is strictly below its successor. *)
Definition adjacent_increasing (w : list Z) : Prop :=
  forall i : nat, (i < EVENT_SIZ - 1)%nat -> w !!! i < w !!! S i.

(** The local array after [ds] were written to it in order, as far as
    they fit, and the number of written cells. *)
Definition written_cells (ds : list Z) : list (option Z) * nat :=
  let written := take (EVENT_SIZ - 1) ds in
  ((Some <$> written) ++
     replicate (EVENT_SIZ - 1 - length written) None,
   length written).

(** A window with the inter-event gaps 1, 2, ..., 31. *)
Definition ramp_window : list Z :=
  [0; 1; 3; 6; 10; 15; 21; 28; 36; 45; 55; 66; 78; 91; 105; 120; 136;
   153; 171; 190; 210; 231; 253; 276; 300; 325; 351; 378; 406; 435; 465;
   496].

(** A window with the constant spacing [delta], starting at [t0]. *)
Definition evenly_spaced (t0 delta : Z) : list Z :=
  (fun i => t0 + Z.of_nat i * delta) <$> seq 0 EVENT_SIZ.
End EstimatorSpec.

(** ** The event handlers *)

Section HandlerSpec.
Context `{codes : evdev_codes}.

(** Events used in examples. *)
Definition syn_at (t : Z) : input_event :=
  {| time := {| tv_sec := 0; tv_usec := t |};
     type := EV_SYN; code := 0; value := 0 |}.
Definition rel_x (v : Z) : input_event :=
  {| time := {| tv_sec := 0; tv_usec := 0 |};
     type := EV_REL; code := REL_X; value := v |}.
Definition abs_x (v : Z) : input_event :=
  {| time := {| tv_sec := 0; tv_usec := 0 |};
     type := EV_ABS; code := ABS_X; value := v |}.
Definition abs_mt_y (v : Z) : input_event :=
  {| time := {| tv_sec := 0; tv_usec := 0 |};
     type := EV_ABS; code := ABS_MT_POSITION_Y; value := v |}.

(** What an event adds to the distance: its value when it is an
    EV_REL/REL_X event, nothing otherwise. *)
Definition rel_x_value (ev : input_event) : Z :=
  if (type ev =? EV_REL) && (code ev =? REL_X) then value ev else 0.

Definition rel_x_sum (evs : list input_event) : Z :=
  foldr (fun ev acc => rel_x_value ev + acc) 0 evs.

(** The events handled since the most recent idle reset, or since the
    start when there was none.  [last_us] is the timestamp of the
    previous EV_SYN event and [acc] the events kept so far. *)
Fixpoint since_reset (last_us : Z) (acc evs : list input_event)
  : list input_event :=
  match evs with
  | [] => acc
  | ev :: evs' =>
      if type ev =? EV_SYN then
        let now := MouseDpiTool.tv2us (time ev) in
        if uint64_wrap (last_us + 3000000) <? now
        then since_reset now [] evs'
        else since_reset now (acc ++ [ev]) evs'
      else since_reset last_us (acc ++ [ev]) evs'
  end.

(** The signed sum the distance field is to hold after [evs]. *)
Definition distance_since_reset (evs : list input_event) : Z :=
  rel_x_sum (since_reset 0 [] evs).

(** The values delivered for the X axis and for the Y axis. *)
Definition is_x (ev : input_event) : bool :=
  (type ev =? EV_ABS)
  && ((code ev =? ABS_X) || (code ev =? ABS_MT_POSITION_X)).
Definition is_y (ev : input_event) : bool :=
  (type ev =? EV_ABS)
  && ((code ev =? ABS_Y) || (code ev =? ABS_MT_POSITION_Y)).
Definition x_values (evs : list input_event) : list Z :=
  value <$> List.filter is_x evs.
Definition y_values (evs : list input_event) : list Z :=
  value <$> List.filter is_y evs.

(** [lo] and [hi] are the least and the greatest element of [vs]. *)
Definition is_min_max (lo hi : Z) (vs : list Z) : Prop :=
  lo ∈ vs /\ hi ∈ vs /\ Forall (fun v => lo <= v <= hi) vs.
End HandlerSpec.

(** ** Devices used in examples *)

Section Devices.
Context `{codes : evdev_codes}.

(** The command line of the examples. *)
Definition example_argv : list string := ["tool"; "/dev/input/event0"].

(** A device another process has grabbed. *)
Definition busy_device : device :=
  {| open_fd := 3; new_from_fd_rc := 0; grab_rc := -16;
     has_event_code := fun _ _ => true; script := [] |}.

(** A device without absolute axes, for example a mouse. *)
Definition relative_device : device :=
  {| open_fd := 3; new_from_fd_rc := 0; grab_rc := 0;
     has_event_code := fun t _ => negb (t =? EV_ABS);
     script := [PollRet 1 0] |}.

(** A device whose second read reports that events were dropped. *)
Definition desync_device : device :=
  {| open_fd := 3; new_from_fd_rc := 0; grab_rc := 0;
     has_event_code := fun _ _ => true;
     script := [PollRet 1 0;
                NextEvent LIBEVDEV_READ_STATUS_SUCCESS (rel_x 7);
                NextEvent LIBEVDEV_READ_STATUS_SYNC (rel_x 0);
                NextEvent LIBEVDEV_READ_STATUS_SUCCESS (rel_x 9)] |}.
End Devices.

(** * Further specification-side definitions *)

(** ** Bus names of the mouse tool *)

(** The bus constants of <linux/input.h> that [bustype] tells apart; the
    [case] labels of one [switch] are pairwise distinct. *)
Class bus_codes := {
  BUS_PCI : Z;
  BUS_ISAPNP : Z;
  BUS_USB : Z;
  BUS_HIL : Z;
  BUS_BLUETOOTH : Z;
  BUS_VIRTUAL : Z;
  bus_codes_distinct :
    NoDup [BUS_PCI; BUS_ISAPNP; BUS_USB; BUS_HIL; BUS_BLUETOOTH; BUS_VIRTUAL]
}.

#[export] Instance linux_bus_codes : bus_codes.
Proof.
  refine {|
    BUS_PCI := 1;
    BUS_ISAPNP := 2;
    BUS_USB := 3;
    BUS_HIL := 4;
    BUS_BLUETOOTH := 5;
    BUS_VIRTUAL := 6
  |}.
  by apply (bool_decide_unpack _).
Defined.

(** [bustype] of the mouse tool. *)
Definition bustype `{buses : bus_codes} (bustype : Z) : string :=
  if bustype =? BUS_PCI then "pci"
  else if bustype =? BUS_ISAPNP then "isapnp"
  else if bustype =? BUS_USB then "usb"
  else if bustype =? BUS_HIL then "hil"
  else if bustype =? BUS_BLUETOOTH then "bluetooth"
  else if bustype =? BUS_VIRTUAL then "virtual"
  else "unknown bus type".

(** ** Timestamps *)

(** A [struct timeval] as the kernel fills it in: a non-negative number of
    seconds and fewer than a million microseconds, small enough for
    [tv2us] not to wrap. *)
Definition timeval_normal (tv : timeval) : Prop :=
  0 <= tv_sec tv < 2 ^ 44 /\ 0 <= tv_usec tv < 1000000.

(** [a] is earlier than [b]. *)
Definition timeval_lt (a b : timeval) : Prop :=
  tv_sec a < tv_sec b \/ (tv_sec a = tv_sec b /\ tv_usec a < tv_usec b).

(** ** The window of the mouse tool as a ring *)

Section RingSpec.
Context `{codes : evdev_codes}.

(** The number of EV_SYN events among [evs]. *)
Definition syn_count (evs : list input_event) : nat :=
  length (List.filter (fun ev => type ev =? EV_SYN) evs).

(** The timestamps of the EV_SYN events among [evs], in order. *)
Definition syn_times (evs : list input_event) : list Z :=
  (fun ev => MouseDpiTool.tv2us (time ev))
    <$> List.filter (fun ev => type ev =? EV_SYN) evs.

(** No EV_SYN event of [evs] comes more than 3,000,000 microseconds after
    the one before it; [last_us] is the timestamp before the first. *)
Fixpoint no_idle_reset (last_us : Z) (evs : list input_event) : bool :=
  match evs with
  | [] => true
  | ev :: evs' =>
      if type ev =? EV_SYN then
        let now := MouseDpiTool.tv2us (time ev) in
        negb (uint64_wrap (last_us + 3000000) <? now)
        && no_idle_reset now evs'
      else no_idle_reset last_us evs'
  end.
End RingSpec.

(** The [k] timestamps that follow [t] at the constant spacing [delta]. *)
Fixpoint arithmetic (t delta : Z) (k : nat) : list Z :=
  match k with
  | O => []
  | S k' => (t + delta) :: arithmetic (t + delta) delta k'
  end.

(** Forty EV_SYN events one millisecond apart, the first at 1000. *)
Definition steady_events `{codes : evdev_codes} : list input_event :=
  (fun i => syn_at (1000 * (1 + Z.of_nat i))) <$> seq 0 40.

(** The glyph of the [k]-th progress line, counting from 0. *)
Definition spinner (k : nat) : ascii :=
  match (k `mod` 4)%nat with
  | 0%nat => "|"%char
  | 1%nat => "/"%char
  | 2%nat => "-"%char
  | _ => ascii_of_nat 92
  end.

(** ** Scripts of the wait loop *)

Section ScriptSpec.
Context `{codes : evdev_codes}.

(** The events a handler is given, one after the other. *)
Definition handle_all {St : Type} (handle_event : St -> input_event -> Z * St)
    (s : St) (evs : list input_event) : St :=
  foldl (fun s ev => snd (handle_event s ev)) s evs.

(** The device becomes readable, delivers [evs] and then has nothing
    more for the moment. *)
Definition drain (evs : list input_event) : list sysres :=
  PollRet 1 0
    :: (NextEvent LIBEVDEV_READ_STATUS_SUCCESS <$> evs)
    ++ [NextEvent (- EAGAIN) (rel_x 0)].

(** A session of several such wake-ups, ended by the interrupt signal. *)
Definition session (batches : list (list input_event)) : list sysres :=
  concat (drain <$> batches) ++ [PollRet 1 1].

(** The read statuses are what <libevdev/libevdev.h> and <errno.h> make
    them: two distinct non-negative statuses and a positive errno. *)
Definition read_statuses_sane : Prop :=
  0 <= LIBEVDEV_READ_STATUS_SUCCESS
  /\ 0 <= LIBEVDEV_READ_STATUS_SYNC
  /\ LIBEVDEV_READ_STATUS_SUCCESS <> LIBEVDEV_READ_STATUS_SYNC
  /\ 0 < EAGAIN.

(** A device that opens, probes and grabs without error. *)
Definition good_device (d : device) : Prop :=
  0 <= open_fd d /\ new_from_fd_rc d = 0 /\ grab_rc d = 0.

(** A command line with a device path that is not an option. *)
Definition good_argv (argv : list string) : Prop :=
  exists argv0 path rest,
    argv = argv0 :: path :: rest /\ starts_with_dash path = false.
End ScriptSpec.


(** Unfolding of the steps of [main]. *)
Ltac run_main :=
  cbv [mbind outcome_bind outcome_prepend do_call return_ mret outcome_ret
       MouseDpiTool.usage TouchpadEdgeDetector.usage TouchpadEdgeDetector.out
       TouchpadEdgeDetector.print_udev_override_rule
       MouseDpiTool.run_mainloop TouchpadEdgeDetector.run_mainloop
       exit_status app].

(** * Properties *)

(** ** Integers *)

Lemma int_wrap_small (z : Z) : int_range z -> int_wrap z = z.
Proof.
  unfold int_range, INT_MIN, INT_MAX, int_wrap. intros Hz.
  rewrite Z.mod_small by lia. lia.
Qed.

Lemma int_wrap_add_l (a b : Z) : int_wrap (int_wrap a + b) = int_wrap (a + b).
Proof.
  unfold int_wrap.
  replace (((a + 2 ^ 31) `mod` 2 ^ 32 - 2 ^ 31 + b + 2 ^ 31))
    with ((a + 2 ^ 31) `mod` 2 ^ 32 + b) by lia.
  rewrite Zplus_mod_idemp_l. f_equal. f_equal. lia.
Qed.

Lemma min_is_Zmin (a b : Z) : min a b = Z.min a b.
Proof. unfold min. destruct (Z.ltb_spec a b); lia. Qed.

Lemma max_is_Zmax (a b : Z) : max a b = Z.max a b.
Proof. unfold max. rewrite Z.gtb_ltb. destruct (Z.ltb_spec b a); lia. Qed.

Lemma uint64_wrap_range (z : Z) : 0 <= uint64_wrap z < 2 ^ 64.
Proof. unfold uint64_wrap. apply Z.mod_pos_bound. lia. Qed.

Lemma double_of_uint64_small (z : Z) : z < 2 ^ 53 -> double_of_uint64 z = z.
Proof.
  intros Hz. unfold double_of_uint64. by rewrite (proj2 (Z.ltb_lt _ _) Hz).
Qed.

(** Above 2^53 the conversion rounds: ties go to the even neighbour, and
    the largest counts round up to 2^64. *)
Lemma double_of_uint64_rounds :
  double_of_uint64 (2 ^ 53 + 1) = 2 ^ 53
  /\ double_of_uint64 (2 ^ 53 + 2) = 2 ^ 53 + 2
  /\ double_of_uint64 (2 ^ 53 + 3) = 2 ^ 53 + 4
  /\ double_of_uint64 (2 ^ 64 - 1) = 2 ^ 64.
Proof. repeat split. Qed.

(** ** Sorting *)

Section Sorting.
Context {A : Type} (compar : A -> A -> Z).

Lemma qsort_insert_Permutation (x : A) (l : list A) :
  qsort_insert compar x l ≡ₚ x :: l.
Proof.
  induction l as [|y l IH]; simpl; [done|].
  destruct (compar x y <=? 0); [done|].
  rewrite IH. apply Permutation_swap.
Qed.

Lemma qsort_cells_Permutation (l : list A) : qsort_cells compar l ≡ₚ l.
Proof.
  induction l as [|x l IH]; simpl; [done|].
  rewrite qsort_insert_Permutation. by rewrite IH.
Qed.

Lemma qsort_cells_length (l : list A) :
  length (qsort_cells compar l) = length l.
Proof. apply Permutation_length, qsort_cells_Permutation. Qed.

Lemma qsort_cells_lookup_Forall (P : A -> Prop) (l : list A) (i : nat) :
  Forall P l -> (i < length l)%nat ->
  exists x, qsort_cells compar l !! i = Some x /\ P x.
Proof.
  intros HP Hi.
  destruct (lookup_lt_is_Some_2 (qsort_cells compar l) i) as [x Hx].
  { by rewrite qsort_cells_length. }
  exists x. split; [done|].
  rewrite <- (qsort_cells_Permutation l) in HP.
  rewrite Forall_forall in HP. apply HP.
  eapply list_elem_of_lookup_2. exact Hx.
Qed.
End Sorting.

Lemma qsort_insert_cells (x : Z) (l : list Z) :
  qsort_insert MouseDpiTool.double_cmp_cells (Some x) (Some <$> l)
  = Some <$> qsort_insert MouseDpiTool.double_cmp x l.
Proof.
  induction l as [|y l IH]; [done|].
  cbn [fmap list_fmap qsort_insert MouseDpiTool.double_cmp_cells].
  destruct (MouseDpiTool.double_cmp x y <=? 0); [done|].
  cbn [fmap list_fmap]. f_equal. apply IH.
Qed.

Lemma qsort_cells_written (l : list Z) :
  qsort_cells MouseDpiTool.double_cmp_cells (Some <$> l)
  = Some <$> qsort_cells MouseDpiTool.double_cmp l.
Proof.
  induction l as [|x l IH]; [done|].
  cbn [fmap list_fmap qsort_cells foldr].
  change (foldr (qsort_insert MouseDpiTool.double_cmp_cells) [] (Some <$> l))
    with (qsort_cells MouseDpiTool.double_cmp_cells (Some <$> l)).
  rewrite IH. apply qsort_insert_cells.
Qed.

(** Sorting the written cells leaves the unwritten ones where they are. *)
Lemma qsort_written_prefix (l : list Z) (r : nat) :
  qsort ((Some <$> l) ++ replicate r None) (length l)
        MouseDpiTool.double_cmp_cells
  = (Some <$> qsort_cells MouseDpiTool.double_cmp l) ++ replicate r None.
Proof.
  unfold qsort.
  rewrite <- (length_fmap Some l) at 1 2.
  rewrite take_app_length, drop_app_length.
  by rewrite qsort_cells_written.
Qed.

(** ** The frequency estimator *)

Section Estimator.
Import MouseDpiTool.

Lemma forward_differences_S (w : list Z) (k : nat) :
  forward_differences w (S k)
  = forward_differences w k ++ option_list (forward_difference w k).
Proof.
  unfold forward_differences. rewrite seq_S, omap_app. simpl.
  by destruct (forward_difference w k).
Qed.

Lemma written_cells_snoc (ds : list Z) (v : Z) :
  (length ds < EVENT_SIZ - 1)%nat ->
  written_cells (ds ++ [v])
  = (<[length ds := Some v]> (fst (written_cells ds)), S (length ds)).
Proof.
  unfold written_cells, EVENT_SIZ. intros Hlen.
  rewrite !take_ge by (rewrite ?length_app; simpl; lia).
  cbn [fst]. rewrite length_app. cbn [length].
  rewrite insert_app_r_alt by (rewrite length_fmap; lia).
  rewrite length_fmap, Nat.sub_diag.
  replace (32 - 1 - length ds)%nat
    with (S (32 - 1 - (length ds + 1)))%nat by lia.
  cbn [replicate]. cbn [insert list_insert].
  rewrite fmap_app, <- app_assoc. cbn [fmap list_fmap app].
  f_equal. lia.
Qed.

Lemma written_cells_full (ds : list Z) (v : Z) :
  (EVENT_SIZ - 1 <= length ds)%nat ->
  written_cells (ds ++ [v]) = written_cells ds.
Proof.
  unfold written_cells, EVENT_SIZ. intros Hlen. by rewrite take_app_le by lia.
Qed.

Lemma written_cells_count (ds : list Z) :
  snd (written_cells ds) = Nat.min (EVENT_SIZ - 1) (length ds).
Proof. unfold written_cells. cbn [snd]. apply length_take. Qed.

(** The loop writes the forward differences met so far, in order. *)
Lemma get_frequency_loop_prefix (w : list Z) (k : nat) :
  foldl (get_frequency_body w) (replicate (EVENT_SIZ - 1) None, 0%nat)
        (seq 0 k)
  = written_cells (forward_differences w k).
Proof.
  induction k as [|k IH]; [done|].
  rewrite seq_S, foldl_app, IH, forward_differences_S. cbn [foldl Nat.add].
  pose proof (written_cells_count (forward_differences w k)) as Hn.
  destruct (written_cells (forward_differences w k)) as [arr n] eqn:Hwc.
  cbn [snd] in Hn.
  unfold get_frequency_body, forward_difference.
  destruct (w !!! k <? w !!! ((k + 1) `mod` EVENT_SIZ)%nat);
    cbn [andb option_list option_rect].
  - destruct (Nat.ltb_spec n (EVENT_SIZ - 1)) as [Hlt|Hge].
    + assert (n = length (forward_differences w k)) as Hlen by lia.
      rewrite written_cells_snoc by lia.
      rewrite Hwc. cbn [fst]. by rewrite <- Hlen.
    + rewrite written_cells_full by lia. by rewrite Hwc.
  - by rewrite app_nil_r, Hwc.
Qed.

Lemma get_frequency_loop_spec (w : list Z) :
  get_frequency_loop w = written_cells (ring_differences w).
Proof. apply get_frequency_loop_prefix. Qed.

(** The estimator reads cell [EVENT_SIZ / 2] of the sorted written
    differences, whatever their number. *)
Lemma get_frequency_spec (w : list Z) :
  get_frequency w
  = (fun d => (1000000 / inject_Z d)%Q)
      <$> qsort_cells double_cmp (take (EVENT_SIZ - 1) (ring_differences w))
            !! (EVENT_SIZ / 2)%nat.
Proof.
  unfold get_frequency. rewrite get_frequency_loop_spec.
  unfold written_cells.
  set (ds := take (EVENT_SIZ - 1) (ring_differences w)).
  rewrite qsort_written_prefix.
  destruct (qsort_cells double_cmp ds !! (EVENT_SIZ / 2)%nat) as [d|] eqn:Hd.
  - rewrite lookup_app_l
      by (rewrite length_fmap; eapply lookup_lt_Some; exact Hd).
    by rewrite list_lookup_fmap, Hd.
  - apply lookup_ge_None in Hd.
    rewrite lookup_app_r by (by rewrite length_fmap).
    destruct (replicate _ None !! _) as [[d|]|] eqn:Hr; [|done|done].
    apply lookup_replicate in Hr. by destruct Hr.
Qed.

Lemma adjacent_all_lookup (R : Z -> Z -> bool) (w : list Z) (i : nat) :
  adjacent_all R w = true -> (S i < length w)%nat ->
  R (w !!! i) (w !!! S i) = true.
Proof.
  revert i. induction w as [|x w IH]; intros i Hall Hi; [simpl in Hi; lia|].
  destruct w as [|y w]; [simpl in Hi; lia|].
  cbn [adjacent_all] in Hall. apply andb_prop in Hall as [Hxy Hall].
  destruct i as [|i]; [exact Hxy|].
  apply (IH i Hall). simpl in Hi |- *. lia.
Qed.

Lemma strictly_increasing_adjacent (w : list Z) :
  length w = EVENT_SIZ -> strictly_increasing w = true ->
  adjacent_increasing w.
Proof.
  intros Hlen Hinc i Hi. apply Z.ltb_lt.
  apply (adjacent_all_lookup Z.ltb); [exact Hinc|]. rewrite Hlen. lia.
Qed.

Lemma adjacent_increasing_first (w : list Z) (k : nat) :
  adjacent_increasing w -> (k <= EVENT_SIZ - 1)%nat -> w !!! 0%nat <= w !!! k.
Proof.
  intros Hinc. induction k as [|k IH]; intros Hk; [lia|].
  specialize (Hinc k). lia.
Qed.

Lemma forward_differences_increasing (w : list Z) (k : nat) :
  adjacent_increasing w -> (k <= EVENT_SIZ - 1)%nat ->
  forward_differences w k = (fun i => w !!! S i - w !!! i) <$> seq 0 k.
Proof.
  intros Hinc. induction k as [|k IH]; intros Hk; [done|].
  rewrite forward_differences_S, IH, seq_S, fmap_app by lia.
  f_equal. unfold forward_difference.
  replace ((k + 1) `mod` EVENT_SIZ)%nat with (S k)
    by (rewrite Nat.mod_small; unfold EVENT_SIZ in *; lia).
  specialize (Hinc k).
  destruct (Z.ltb_spec (w !!! k) (w !!! S k)); [done|lia].
Qed.

(** On a strictly increasing window the ring yields the 31 consecutive
    differences; the step from the last timestamp back to the first is
    not a forward one. *)
Lemma ring_differences_increasing (w : list Z) :
  adjacent_increasing w ->
  ring_differences w
  = (fun i => w !!! S i - w !!! i) <$> seq 0 (EVENT_SIZ - 1).
Proof.
  intros Hinc. unfold ring_differences.
  change EVENT_SIZ with (S (EVENT_SIZ - 1)) at 1.
  rewrite forward_differences_S, forward_differences_increasing by done.
  unfold forward_difference.
  change ((EVENT_SIZ - 1 + 1) `mod` EVENT_SIZ)%nat with 0%nat.
  pose proof (adjacent_increasing_first w (EVENT_SIZ - 1) Hinc).
  destruct (Z.ltb_spec (w !!! (EVENT_SIZ - 1)%nat) (w !!! 0%nat)); [lia|].
  apply app_nil_r.
Qed.

Lemma ring_differences_increasing_length (w : list Z) :
  adjacent_increasing w -> length (ring_differences w) = (EVENT_SIZ - 1)%nat.
Proof.
  intros Hinc. rewrite ring_differences_increasing by done.
  by rewrite length_fmap, length_seq.
Qed.
End Estimator.

Section EstimatorClaims.
Import MouseDpiTool.

Lemma forward_differences_equal (t : Z) (k : nat) :
  (k <= EVENT_SIZ)%nat -> forward_differences (replicate EVENT_SIZ t) k = [].
Proof.
  induction k as [|k IH]; intros Hk; [done|].
  rewrite forward_differences_S, IH by lia.
  unfold forward_difference.
  assert ((k + 1) `mod` EVENT_SIZ < EVENT_SIZ)%nat
    by (apply Nat.mod_upper_bound; discriminate).
  rewrite !lookup_total_replicate_2 by lia.
  by rewrite Z.ltb_irrefl.
Qed.

Lemma get_frequency_increasing (w : list Z) :
  adjacent_increasing w ->
  exists d, qsort_cells double_cmp (ring_differences w) !! (EVENT_SIZ / 2)%nat
            = Some d
            /\ 0 < d
            /\ get_frequency w = Some (1000000 / inject_Z d)%Q.
Proof.
  intros Hinc.
  pose proof (ring_differences_increasing_length w Hinc) as Hlen.
  destruct (qsort_cells_lookup_Forall double_cmp (fun d => 0 < d)
              (ring_differences w) (EVENT_SIZ / 2)) as (d & Hd & Hpos).
  - rewrite ring_differences_increasing by done.
    apply Forall_fmap, Forall_forall. intros i Hi. simpl.
    apply elem_of_seq in Hi. specialize (Hinc i). lia.
  - rewrite Hlen. unfold EVENT_SIZ. simpl. lia.
  - exists d. repeat split; [done..|].
    rewrite get_frequency_spec, take_ge by lia. by rewrite Hd.
Qed.

(** C1.  The estimator does take the forward differences at the
    positions where the next timestamp is strictly greater and sorts
    them, but what it divides 1,000,000 by is cell 16 of the sorted
    array, not the median.  On the strictly increasing window with gaps
    1, 2, ..., 31 the sorted differences are 1, ..., 31, whose median is
    16 (62,500 Hz); the estimator returns 1,000,000 / 17. *)
Theorem get_frequency_ramp_window_not_median :
  strictly_increasing ramp_window = true
  /\ qsort_cells double_cmp (ring_differences ramp_window)
     = Z.of_nat <$> seq 1 31
  /\ median_frequency ramp_window = Some (1000000 # 16)
  /\ get_frequency ramp_window = Some (1000000 # 17).
Proof. repeat split; vm_compute; reflexivity. Qed.

(** C2.  On a window of 32 strictly increasing timestamps that are
    [delta] microseconds apart, the estimator returns 1,000,000 / delta,
    the frequency 1 / delta in Hz. *)
Theorem get_frequency_constant_spacing (w : list Z) (delta : Z) :
  length w = EVENT_SIZ ->
  strictly_increasing w = true ->
  spaced_by delta w = true ->
  get_frequency w = Some (1000000 / inject_Z delta)%Q.
Proof.
  intros Hlen Hinc Hsp.
  pose proof (strictly_increasing_adjacent w Hlen Hinc) as Hadj.
  pose proof (ring_differences_increasing_length w Hadj) as Hrl.
  destruct (qsort_cells_lookup_Forall double_cmp (fun d => d = delta)
              (ring_differences w) (EVENT_SIZ / 2)) as (d & Hd & ->).
  - rewrite ring_differences_increasing by done.
    apply Forall_fmap, Forall_forall. intros i Hi. simpl.
    apply elem_of_seq in Hi. apply Z.eqb_eq.
    apply (adjacent_all_lookup (fun x y => y - x =? delta)); [exact Hsp|].
    rewrite Hlen. lia.
  - rewrite Hrl. unfold EVENT_SIZ. simpl. lia.
  - rewrite get_frequency_spec, take_ge by lia. by rewrite Hd.
Qed.

Lemma get_frequency_constant_spacing_witness :
  get_frequency (evenly_spaced 100 8000)
  = Some (1000000 / inject_Z 8000)%Q.
Proof.
  apply (get_frequency_constant_spacing (evenly_spaced 100 8000) 8000);
    reflexivity.
Defined.

(** C9.  On a window of 32 equal timestamps no forward difference is
    written ([d_index] stays 0), and the cell the estimator reads,
    [differences[EVENT_SIZ / 2]], was never written: the result is
    computed from an indeterminate value.  On a window of 32 strictly
    increasing timestamps 31 differences are written, so cell 16 lies
    within the written, sorted part and holds a positive difference. *)
Theorem get_frequency_reads_cell_sixteen :
  (forall t : Z,
      let w := replicate EVENT_SIZ t in
      snd (get_frequency_loop w) = 0%nat
      /\ fst (get_frequency_loop w) !! (EVENT_SIZ / 2)%nat = Some None
      /\ get_frequency w = None)
  /\ (forall w : list Z,
        length w = EVENT_SIZ ->
        strictly_increasing w = true ->
        let '(differences, d_index) := get_frequency_loop w in
        d_index = 31%nat
        /\ (EVENT_SIZ / 2 < d_index)%nat
        /\ exists d, qsort differences d_index double_cmp_cells
                       !! (EVENT_SIZ / 2)%nat = Some (Some d)
                     /\ 0 < d
                     /\ get_frequency w = Some (1000000 / inject_Z d)%Q).
Proof.
  split.
  - intros t w. subst w.
    rewrite get_frequency_spec, get_frequency_loop_spec.
    unfold ring_differences. rewrite forward_differences_equal by done.
    repeat split.
  - intros w Hlen Hinc.
    pose proof (strictly_increasing_adjacent w Hlen Hinc) as Hadj.
    pose proof (ring_differences_increasing_length w Hadj) as Hrl.
    destruct (get_frequency_increasing w Hadj) as (d & Hd & Hpos & Hfreq).
    rewrite get_frequency_loop_spec. unfold written_cells.
    rewrite take_ge by lia. cbv beta iota zeta.
    rewrite qsort_written_prefix, Hrl.
    split; [done|]. split; [unfold EVENT_SIZ; simpl; lia|].
    exists d. split; [|done].
    rewrite lookup_app_l
      by (rewrite length_fmap; eapply lookup_lt_Some; exact Hd).
    by rewrite list_lookup_fmap, Hd.
Qed.

Lemma get_frequency_reads_cell_sixteen_witness :
  let '(differences, d_index) := get_frequency_loop ramp_window in
  d_index = 31%nat
  /\ (EVENT_SIZ / 2 < d_index)%nat
  /\ exists d, qsort differences d_index double_cmp_cells
                 !! (EVENT_SIZ / 2)%nat = Some (Some d)
               /\ 0 < d
               /\ get_frequency ramp_window
                  = Some (1000000 / inject_Z d)%Q.
Proof.
  apply (proj2 get_frequency_reads_cell_sixteen ramp_window); reflexivity.
Defined.
End EstimatorClaims.

(** ** The event handler of the mouse tool *)

Section MouseHandler.
Import MouseDpiTool.
Context `{codes : evdev_codes}.

(** An event that is not EV_SYN leaves everything but the distance. *)
Lemma handle_event_other (s : state) (ev : input_event) :
  type ev <> EV_SYN ->
  let s' := snd (handle_event s ev) in
  us (m s') = us (m s)
  /\ frequency (m s') = frequency (m s)
  /\ event_times s' = event_times s
  /\ event_times_index s' = event_times_index s
  /\ event_list_valid s' = event_list_valid s
  /\ progress s' = progress s
  /\ stdout s' = stdout s
  /\ distance (m s') = int_wrap (distance (m s) + rel_x_value ev)
     \/ (rel_x_value ev = 0 /\ s' = s).
Proof.
  intros Hty. unfold handle_event, rel_x_value.
  destruct (Z.eqb_spec (type ev) EV_SYN) as [|_]; [done|].
  destruct (type ev =? EV_REL); cbn [negb andb]; [|by right].
  destruct (code ev =? REL_X); [|by right].
  left. by repeat split.
Qed.

Lemma handle_events_other (s : state) (evs : list input_event) :
  Forall (fun ev => type ev <> EV_SYN) evs ->
  let s' := handle_events s evs in
  us (m s') = us (m s)
  /\ event_times s' = event_times s
  /\ event_times_index s' = event_times_index s
  /\ event_list_valid s' = event_list_valid s
  /\ progress s' = progress s
  /\ stdout s' = stdout s.
Proof.
  intros Hall. revert s.
  induction Hall as [|ev evs Hev _ IH]; intros s; [done|].
  cbn [handle_events foldl]. fold (handle_events (snd (handle_event s ev)) evs).
  destruct (IH (snd (handle_event s ev))) as (-> & -> & -> & -> & -> & ->).
  destruct (handle_event_other s ev Hev)
    as [(? & _ & ? & ? & ? & ? & ? & _)|[_ ->]]; done.
Qed.

(** What an EV_SYN event does, by the outcome of the idle test. *)
Lemma handle_event_syn_reset (s : state) (ev : input_event) :
  type ev = EV_SYN ->
  uint64_wrap (us (m s) + 3000000) < tv2us (time ev) ->
  snd (handle_event s ev)
  = {| m := {| distance := 0; frequency := Some 0%Q;
               us := tv2us (time ev) |};
       event_times := event_times s;
       event_times_index := 0;
       event_list_valid := false;
       progress := progress s;
       stdout := stdout s |}.
Proof.
  intros Hty Hgap. unfold handle_event.
  rewrite (proj2 (Z.eqb_eq _ _) Hty).
  by rewrite (proj2 (Z.ltb_lt _ _) Hgap).
Qed.

Lemma handle_event_syn_keep (s : state) (ev : input_event) :
  type ev = EV_SYN ->
  tv2us (time ev) <= uint64_wrap (us (m s) + 3000000) ->
  let s' := snd (handle_event s ev) in
  let wrapped := (S (event_times_index s) =? EVENT_SIZ)%nat in
  distance (m s') = distance (m s)
  /\ us (m s') = tv2us (time ev)
  /\ event_times s'
     = <[event_times_index s := double_of_uint64 (tv2us (time ev))]>
         (event_times s)
  /\ event_times_index s'
     = (if wrapped then 0 else S (event_times_index s))%nat
  /\ event_list_valid s' = (if wrapped then true else event_list_valid s)
  /\ frequency (m s')
     = (if event_list_valid s'
        then dmax (get_frequency (event_times s')) (frequency (m s))
        else frequency (m s))
  /\ length (stdout s') = S (length (stdout s)).
Proof.
  intros Hty Hgap. unfold handle_event.
  rewrite (proj2 (Z.eqb_eq _ _) Hty).
  rewrite (proj2 (Z.ltb_ge _ _) Hgap).
  unfold print_current_values. cbn [snd m distance us frequency event_times
    event_times_index event_list_valid stdout].
  repeat split. rewrite length_app. simpl. lia.
Qed.
End MouseHandler.

Section MouseClaims.
Import MouseDpiTool.
Context `{codes : evdev_codes}.

Lemma handle_event_syn_us (s : state) (ev : input_event) :
  type ev = EV_SYN -> us (m (snd (handle_event s ev))) = tv2us (time ev).
Proof.
  intros Hty.
  destruct (Z.lt_ge_cases (uint64_wrap (us (m s) + 3000000))
                          (tv2us (time ev))) as [Hgap|Hgap].
  - by rewrite handle_event_syn_reset.
  - by destruct (handle_event_syn_keep s ev Hty Hgap) as (_ & -> & _).
Qed.

Lemma tv2us_range (tv : timeval) : 0 <= tv2us tv < 2 ^ 64.
Proof. apply uint64_wrap_range. Qed.

(** [max] returns one of its operands, and never one below the second. *)
Lemma dmax_ge (a b : option Q) (x y : Q) :
  b = Some x -> dmax a b = Some y -> (x <= y)%Q.
Proof.
  intros -> Hmax. destruct a as [z|]; [|done]. cbn [dmax] in Hmax.
  destruct (Qle_bool z x) eqn:Hle; injection Hmax as <-.
  - apply Qle_refl.
  - apply Qlt_le_weak, Qnot_le_lt. intros Hzx.
    apply Qle_bool_iff in Hzx. congruence.
Qed.

(** C3, amended.  Between two consecutive EV_SYN events the reset happens
    exactly when the second timestamp is more than 3,000,000
    microseconds after the first.  Then the distance, the peak
    frequency and the window index are zeroed and the valid flag is
    cleared.  Otherwise the distance is kept; the timestamp is stored at
    the window index as the [double] nearest to it; the index moves on
    and returns to 0 exactly from the last cell, which is also exactly
    when the valid flag is set, and otherwise the flag keeps its value,
    so it is never cleared; and the peak frequency is kept while the
    window is not valid and never lowered: when the window is valid and
    its timestamps are below 2^53, so that the estimator subtracts them
    exactly, it is the maximum of itself and the new estimate. *)
Theorem idle_reset_iff_gap_exceeds_three_seconds
    (s : state) (e1 : input_event) (mid : list input_event)
    (e2 : input_event) :
  type e1 = EV_SYN ->
  Forall (fun ev => type ev <> EV_SYN) mid ->
  type e2 = EV_SYN ->
  tv2us (time e1) + 3000000 < 2 ^ 64 ->
  let s1 := handle_events s (e1 :: mid) in
  let s2 := snd (handle_event s1 e2) in
  let gap := tv2us (time e2) - tv2us (time e1) in
  (3000000 < gap ->
     distance (m s2) = 0
     /\ frequency (m s2) = Some 0%Q
     /\ event_times_index s2 = 0%nat
     /\ event_list_valid s2 = false)
  /\ (gap <= 3000000 ->
        distance (m s2) = distance (m s1)
        /\ event_times s2
           = <[event_times_index s1 := double_of_uint64 (tv2us (time e2))]>
               (event_times s1)
        /\ event_times_index s2
           = (if (S (event_times_index s1) =? EVENT_SIZ)%nat
              then 0 else S (event_times_index s1))%nat
        /\ event_list_valid s2
           = (if (S (event_times_index s1) =? EVENT_SIZ)%nat
              then true else event_list_valid s1)
        /\ (event_list_valid s1 = true -> event_list_valid s2 = true)
        /\ (event_list_valid s2 = false ->
            frequency (m s2) = frequency (m s1))
        /\ (forall f1 f2 : Q,
              frequency (m s1) = Some f1 -> frequency (m s2) = Some f2 ->
              (f1 <= f2)%Q)
        /\ (event_list_valid s2 = true ->
            Forall (fun t => 0 <= t < 2 ^ 53) (event_times s2) ->
            frequency (m s2)
            = dmax (get_frequency (event_times s2)) (frequency (m s1)))).
Proof.
  intros Hty1 Hmid Hty2 Hrange s1 s2 gap.
  assert (us (m s1) = tv2us (time e1)) as Hus.
  { subst s1. cbn [handle_events foldl].
    fold (handle_events (snd (handle_event s e1)) mid).
    destruct (handle_events_other (snd (handle_event s e1)) mid Hmid)
      as (-> & _).
    by apply handle_event_syn_us. }
  assert (uint64_wrap (us (m s1) + 3000000) = tv2us (time e1) + 3000000)
    as Hwrap.
  { rewrite Hus. unfold uint64_wrap. apply Z.mod_small.
    pose proof (tv2us_range (time e1)). lia. }
  split; intros Hgap; subst gap s2.
  - rewrite handle_event_syn_reset by (rewrite ?Hwrap; lia). done.
  - destruct (handle_event_syn_keep s1 e2 Hty2)
      as (Hd & _ & Ht & Hi & Hv & Hf & _); [rewrite Hwrap; lia|].
    split; [exact Hd|]. split; [exact Ht|]. split; [exact Hi|].
    split; [exact Hv|]. split; [|split; [|split]].
    + intros Hvalid. rewrite Hv, Hvalid. by destruct (_ =? _)%nat.
    + intros Hvalid. by rewrite Hf, Hvalid.
    + intros f1 f2 Hf1 Hf2. rewrite Hf in Hf2.
      destruct (event_list_valid (snd (handle_event s1 e2))).
      * eapply dmax_ge; [exact Hf1|exact Hf2].
      * rewrite Hf1 in Hf2. injection Hf2 as <-. apply Qle_refl.
    + intros Hvalid _. by rewrite Hf, Hvalid.
Qed.

(** C10.  [main] starts with the last-sync timestamp 0, so the first
    EV_SYN event of a session whose timestamp is above 3,000,000
    microseconds takes the reset branch: the window still holds its
    initial zeroes, stays invalid, and nothing has been printed. *)
Theorem first_sync_takes_reset_branch
    (pre : list input_event) (ev : input_event) :
  Forall (fun e => type e <> EV_SYN) pre ->
  type ev = EV_SYN ->
  3000000 < tv2us (time ev) ->
  let s := handle_events initial pre in
  handle_event s ev
  = (0, {| m := {| distance := 0; frequency := Some 0%Q;
                   us := tv2us (time ev) |};
           event_times := replicate EVENT_SIZ 0;
           event_times_index := 0;
           event_list_valid := false;
           progress := 0;
           stdout := [] |}).
Proof.
  intros Hpre Hty Hlate s.
  destruct (handle_events_other initial pre Hpre)
    as (Hus & Ht & Hi & Hv & Hprog & Hout).
  fold s in Hus, Ht, Hi, Hv, Hprog, Hout.
  unfold handle_event.
  rewrite (proj2 (Z.eqb_eq _ _) Hty), Hus.
  change (uint64_wrap (us (m initial) + 3000000)) with 3000000.
  rewrite (proj2 (Z.ltb_lt _ _) Hlate).
  by rewrite Ht, Hout, Hprog.
Qed.
End MouseClaims.

Section MouseDistance.
Import MouseDpiTool.
Context `{codes : evdev_codes}.

Lemma rel_x_sum_snoc (acc : list input_event) (ev : input_event) :
  rel_x_sum (acc ++ [ev]) = rel_x_sum acc + rel_x_value ev.
Proof.
  unfold rel_x_sum. induction acc as [|a acc IH]; simpl; [lia|].
  rewrite IH. lia.
Qed.

Lemma rel_x_value_syn (ev : input_event) :
  type ev = EV_SYN -> rel_x_value ev = 0.
Proof.
  intros Hty. unfold rel_x_value. rewrite Hty.
  destruct (Z.eqb_spec EV_SYN EV_REL) as [Heq|]; [|done].
  by destruct (EV_SYN_neq_EV_REL Heq).
Qed.

(** The distance field follows the events kept by [since_reset], up to
    the reduction to [int] done by each addition. *)
Lemma handle_events_distance (s : state) (acc evs : list input_event) :
  distance (m s) = int_wrap (rel_x_sum acc) ->
  distance (m (handle_events s evs))
  = int_wrap (rel_x_sum (since_reset (us (m s)) acc evs)).
Proof.
  revert s acc. induction evs as [|ev evs IH]; intros s acc Hacc; [done|].
  cbn [handle_events foldl since_reset].
  fold (handle_events (snd (handle_event s ev)) evs).
  destruct (Z.eqb_spec (type ev) EV_SYN) as [Hty|Hty].
  - destruct (Z.ltb_spec (uint64_wrap (us (m s) + 3000000))
                         (tv2us (time ev))) as [Hgap|Hgap].
    + rewrite handle_event_syn_reset by done.
      by rewrite (IH _ []).
    + destruct (handle_event_syn_keep s ev Hty Hgap) as (Hd & Hus & _).
      rewrite (IH _ (acc ++ [ev])); [by rewrite Hus|].
      rewrite Hd, Hacc, rel_x_sum_snoc, rel_x_value_syn by done.
      f_equal. lia.
  - rewrite (IH _ (acc ++ [ev])).
    + destruct (handle_event_other s ev Hty) as [(-> & _)|[_ ->]]; done.
    + rewrite rel_x_sum_snoc.
      destruct (handle_event_other s ev Hty)
        as [(_ & _ & _ & _ & _ & _ & _ & ->)|[-> ->]].
      * by rewrite Hacc, int_wrap_add_l.
      * rewrite Hacc. f_equal. lia.
Qed.

(** C4, amended.  The distance field is the signed sum of the values of
    the EV_REL/REL_X events handled since the most recent idle reset, or
    since the start, reduced to [int] by the wrap-around of each
    addition; it is that sum itself whenever the sum is an [int].  The
    distance in the final summary is [abs] of the field, which is the
    absolute value of the sum whenever that absolute value is an
    [int]. *)
Theorem distance_is_wrapped_sum_since_reset (evs : list input_event) :
  let s := handle_events initial evs in
  let sum := distance_since_reset evs in
  distance (m s) = int_wrap sum
  /\ sum_distance (snd (print_summary (m s))) = abs (distance (m s))
  /\ (int_range sum -> distance (m s) = sum)
  /\ (Z.abs sum <= INT_MAX ->
      sum_distance (snd (print_summary (m s))) = Z.abs sum).
Proof.
  intros s sum.
  assert (distance (m s) = int_wrap sum) as Hd.
  { subst s sum. by rewrite (handle_events_distance initial []). }
  split; [exact Hd|]. split; [done|]. split.
  - intros Hrange. rewrite Hd. by apply int_wrap_small.
  - intros Hrange. unfold print_summary. cbn [snd sum_distance distance].
    rewrite Hd, int_wrap_small
      by (unfold int_range, INT_MIN, INT_MAX in *; lia).
    apply int_wrap_small. unfold int_range, INT_MIN, INT_MAX in *. lia.
Qed.
End MouseDistance.

(** ** The event handler of the touchpad tool *)

Section TouchpadClaims.
Import TouchpadEdgeDetector.
Context `{codes : evdev_codes}.

Lemma foldl_min_spec (a : Z) (vs : list Z) :
  let r := foldl Z.min a vs in
  r <= a /\ Forall (fun v => r <= v) vs /\ (r = a \/ r ∈ vs).
Proof.
  revert a. induction vs as [|v vs IH]; intros a; simpl.
  - split; [lia|split]; [constructor|by left].
  - destruct (IH (Z.min a v)) as (Hle & Hall & Hin).
    split; [lia|split].
    + constructor; [lia|done].
    + destruct Hin as [Heq|Hin]; [|right; by right].
      destruct (Z.min_spec a v) as [[_ Hm]|[_ Hm]]; rewrite Hm in *.
      * by left.
      * right. rewrite Heq. by left.
Qed.

Lemma foldl_max_spec (a : Z) (vs : list Z) :
  let r := foldl Z.max a vs in
  a <= r /\ Forall (fun v => v <= r) vs /\ (r = a \/ r ∈ vs).
Proof.
  revert a. induction vs as [|v vs IH]; intros a; simpl.
  - split; [lia|split]; [constructor|by left].
  - destruct (IH (Z.max a v)) as (Hle & Hall & Hin).
    split; [lia|split].
    + constructor; [lia|done].
    + destruct Hin as [Heq|Hin]; [|right; by right].
      destruct (Z.max_spec a v) as [[_ Hm]|[_ Hm]]; rewrite Hm in *.
      * right. rewrite Heq. by left.
      * by left.
Qed.

(** Exactly one of the two [case] groups matches an absolute axis
    code. *)
Lemma x_code_not_y (c : Z) :
  (c =? ABS_X) || (c =? ABS_MT_POSITION_X) = true ->
  (c =? ABS_Y) || (c =? ABS_MT_POSITION_Y) = false.
Proof.
  pose proof ABS_X_neq_ABS_Y. pose proof ABS_X_neq_ABS_MT_POSITION_Y.
  pose proof ABS_MT_POSITION_X_neq_ABS_Y.
  pose proof ABS_MT_POSITION_X_neq_ABS_MT_POSITION_Y.
  intros [Hc|Hc]%orb_prop; apply Z.eqb_eq in Hc; subst c;
    apply orb_false_intro; apply Z.eqb_neq; done.
Qed.

(** The handler folds [min] and [max] over the delivered values. *)
Lemma handle_events_bounds (s : state) (evs : list input_event) :
  let d := dim (handle_events s evs) in
  left d = foldl Z.min (left (dim s)) (x_values evs)
  /\ right d = foldl Z.max (right (dim s)) (x_values evs)
  /\ top d = foldl Z.min (top (dim s)) (y_values evs)
  /\ bottom d = foldl Z.max (bottom (dim s)) (y_values evs).
Proof.
  revert s. induction evs as [|ev evs IH]; intros s; [done|].
  cbn [handle_events foldl].
  fold (handle_events (snd (handle_event s ev)) evs).
  destruct (IH (snd (handle_event s ev))) as (-> & -> & -> & ->).
  unfold x_values, y_values, handle_event, is_x, is_y.
  cbn [List.filter].
  destruct (Z.eqb_spec (type ev) EV_SYN) as [Hsyn|_].
  { rewrite Hsyn. destruct (Z.eqb_spec EV_SYN EV_ABS) as [Heq|_]; [|done].
    by destruct (EV_SYN_neq_EV_ABS Heq). }
  destruct (type ev =? EV_ABS); cbn [negb andb]; [|done].
  destruct ((code ev =? ABS_X) || (code ev =? ABS_MT_POSITION_X)) eqn:Hx.
  - rewrite (x_code_not_y _ Hx). cbn [snd dim left right top bottom fmap
      list_fmap foldl]. by rewrite min_is_Zmin, max_is_Zmax.
  - destruct ((code ev =? ABS_Y) || (code ev =? ABS_MT_POSITION_Y));
      [|done].
    cbn [snd dim left right top bottom fmap list_fmap foldl].
    by rewrite min_is_Zmin, max_is_Zmax.
Qed.

Lemma min_max_of_delivered (vs : list Z) :
  Forall int_range vs -> vs <> [] ->
  let lo := foldl Z.min INT_MAX vs in
  let hi := foldl Z.max INT_MIN vs in
  lo <= hi /\ is_min_max lo hi vs.
Proof.
  intros Hrange Hne lo hi.
  destruct (foldl_min_spec INT_MAX vs) as (Hlo & Hlos & Hloin).
  destruct (foldl_max_spec INT_MIN vs) as (Hhi & Hhis & Hhiin).
  fold lo in Hlo, Hlos, Hloin. fold hi in Hhi, Hhis, Hhiin.
  destruct vs as [|v vs]; [done|].
  pose proof (Forall_inv Hrange) as Hv. unfold int_range in Hv.
  pose proof (Forall_inv Hlos) as Hlov. pose proof (Forall_inv Hhis) as Hhiv.
  simpl in Hlov, Hhiv.
  assert (lo ∈ v :: vs) as Hlo_in.
  { destruct Hloin as [Heq|]; [|done].
    replace lo with v by lia. constructor. }
  assert (hi ∈ v :: vs) as Hhi_in.
  { destruct Hhiin as [Heq|]; [|done].
    replace hi with v by lia. constructor. }
  split; [lia|]. repeat split; [done..|].
  rewrite Forall_forall in Hlos, Hhis. apply Forall_forall.
  intros x Hx. split; [by apply Hlos|by apply Hhis].
Qed.

(** C5, amended.  Starting from the initial dimensions, once a value
    for the X axis (code ABS_X or ABS_MT_POSITION_X) has been delivered
    [left <= right] holds and [left] and [right] are the minimum and the
    maximum of all X values; the same holds for [top], [bottom] and the
    Y axis (ABS_Y or ABS_MT_POSITION_Y).  An axis that has received no
    value keeps the initial INT_MAX and INT_MIN. *)
Theorem bounds_are_min_max_of_delivered_values (evs : list input_event) :
  Forall (fun ev => int_range (value ev)) evs ->
  let d := dim (handle_events initial evs) in
  (x_values evs <> [] ->
     left d <= right d /\ is_min_max (left d) (right d) (x_values evs))
  /\ (y_values evs <> [] ->
        top d <= bottom d /\ is_min_max (top d) (bottom d) (y_values evs))
  /\ (x_values evs = [] -> left d = INT_MAX /\ right d = INT_MIN)
  /\ (y_values evs = [] -> top d = INT_MAX /\ bottom d = INT_MIN).
Proof.
  intros Hrange d.
  destruct (handle_events_bounds initial evs) as (Hl & Hr & Ht & Hb).
  fold d in Hl, Hr, Ht, Hb. rewrite Hl, Hr, Ht, Hb.
  cbn [initial dim left right top bottom].
  assert (forall f, Forall int_range (value <$> List.filter f evs)) as Hvs.
  { intros f. apply Forall_fmap, Forall_forall. intros ev Hev.
    rewrite Forall_forall in Hrange. apply Hrange.
    apply list_elem_of_In in Hev. apply filter_In in Hev as [Hev _].
    by apply list_elem_of_In. }
  split; [|split; [|split]].
  - intros Hne. apply min_max_of_delivered; [apply Hvs|exact Hne].
  - intros Hne. apply min_max_of_delivered; [apply Hvs|exact Hne].
  - by intros ->.
  - by intros ->.
Qed.
End TouchpadClaims.

(** ** The wait loop and the process *)

Section Loop.
Context `{codes : evdev_codes}.
Context {St : Type} (handle_event : St -> input_event -> Z * St).

Lemma mainloop_run_returned (rc : Z) (s : St) (script : list sysres) :
  mainloop_run handle_event (Returned rc s) script = Some (Returned rc s).
Proof. induction script as [|r script IH]; [done|exact IH]. Qed.

Lemma mainloop_run_app (l : loop_state St) (pre post : list sysres) :
  mainloop_run handle_event l (pre ++ post)
  = mainloop_run handle_event l pre
      ≫= fun l' => mainloop_run handle_event l' post.
Proof.
  revert l. induction pre as [|r pre IH]; intros l; [done|].
  cbn [app mainloop_run]. destruct (mainloop_step handle_event l r); [|done].
  apply IH.
Qed.

(** A read that reports LIBEVDEV_READ_STATUS_SYNC ends the loop with 1
    and with the state as it was when the read was made; what the
    device would have delivered afterwards is never looked at. *)
Lemma mainloop_sync (s0 s : St) (pre post : list sysres) (ev : input_event) :
  mainloop_run handle_event (AtPoll s0) pre = Some (AtRead s) ->
  mainloop handle_event
    (pre ++ NextEvent LIBEVDEV_READ_STATUS_SYNC ev :: post) s0
  = Some (1, s).
Proof.
  intros Hpre. unfold mainloop. rewrite mainloop_run_app, Hpre.
  cbn [mbind option_bind mainloop_run mainloop_step].
  rewrite Z.eqb_refl. by rewrite mainloop_run_returned.
Qed.
End Loop.

Section Process.
Context `{codes : evdev_codes}.

Lemma mouse_main_mainloop_returns (argv : list string) (d : device)
    (rc : Z) (s : MouseDpiTool.state) :
  mainloop MouseDpiTool.handle_event (script d) MouseDpiTool.initial
  = Some (rc, s) ->
  exit_status (MouseDpiTool.main argv d) = Some rc \/
  exit_status (MouseDpiTool.main argv d) = Some 1.
Proof.
  intros Hloop. unfold MouseDpiTool.main.
  destruct (_ <? 2); [by right|].
  destruct (starts_with_dash _); [by right|].
  destruct (open_fd d <? 0); [by right|].
  destruct (negb (new_from_fd_rc d =? 0)); [by right|].
  destruct (negb (grab_rc d =? 0)); [by right|].
  left. run_main. by rewrite Hloop.
Qed.

Lemma touchpad_main_mainloop_returns (argv : list string) (d : device)
    (rc : Z) (s : TouchpadEdgeDetector.state) :
  mainloop TouchpadEdgeDetector.handle_event (script d)
           TouchpadEdgeDetector.initial
  = Some (rc, s) ->
  exit_status (TouchpadEdgeDetector.main argv d) = Some rc \/
  exit_status (TouchpadEdgeDetector.main argv d) = Some 1.
Proof.
  intros Hloop. unfold TouchpadEdgeDetector.main.
  destruct (_ <? 2); [by right|].
  destruct (starts_with_dash _); [by right|].
  destruct (open_fd d <? 0); [by right|].
  destruct (negb (new_from_fd_rc d =? 0)); [by right|].
  destruct (negb (grab_rc d =? 0)); [by right|].
  destruct (_ || _); [by right|].
  left. run_main. by rewrite Hloop.
Qed.

(** C7.  In either tool, when a read from the device returns
    LIBEVDEV_READ_STATUS_SYNC the wait loop returns 1 at once, with the
    measurements as they were at that read whatever the device would
    deliver next, and the exit status of the process is 1. *)
Theorem desync_read_ends_the_loop
    (argv : list string) (d : device) (pre post : list sysres)
    (ev : input_event) :
  script d = pre ++ NextEvent LIBEVDEV_READ_STATUS_SYNC ev :: post ->
  (forall s,
      mainloop_run MouseDpiTool.handle_event
                   (AtPoll MouseDpiTool.initial) pre = Some (AtRead s) ->
      mainloop MouseDpiTool.handle_event (script d) MouseDpiTool.initial
      = Some (1, s)
      /\ exit_status (MouseDpiTool.main argv d) = Some 1)
  /\ (forall s,
        mainloop_run TouchpadEdgeDetector.handle_event
                     (AtPoll TouchpadEdgeDetector.initial) pre
        = Some (AtRead s) ->
        mainloop TouchpadEdgeDetector.handle_event (script d)
                 TouchpadEdgeDetector.initial
        = Some (1, s)
        /\ exit_status (TouchpadEdgeDetector.main argv d) = Some 1).
Proof.
  intros Hscript. split; intros s Hpre.
  - assert (mainloop MouseDpiTool.handle_event (script d)
                     MouseDpiTool.initial = Some (1, s)) as Hloop
      by (rewrite Hscript; by apply mainloop_sync).
    split; [exact Hloop|].
    by destruct (mouse_main_mainloop_returns argv d 1 s Hloop).
  - assert (mainloop TouchpadEdgeDetector.handle_event (script d)
                     TouchpadEdgeDetector.initial = Some (1, s)) as Hloop
      by (rewrite Hscript; by apply mainloop_sync).
    split; [exact Hloop|].
    by destruct (touchpad_main_mainloop_returns argv d 1 s Hloop).
Qed.

(** C6.  On a device without the EV_ABS/ABS_X or the EV_ABS/ABS_Y
    capability the touchpad tool returns 1 without having called
    [mainloop]. *)
Theorem main_without_abs_axes_exits_before_mainloop
    (argv : list string) (d : device) :
  has_event_code d EV_ABS ABS_X = false
  \/ has_event_code d EV_ABS ABS_Y = false ->
  exists log,
    TouchpadEdgeDetector.main argv d = Return 1 log
    /\ called_mainloop log = false.
Proof.
  intros Hcap. unfold TouchpadEdgeDetector.main.
  destruct (_ <? 2); [by eexists|].
  destruct (starts_with_dash _); [by eexists|].
  destruct (open_fd d <? 0); [by eexists|].
  destruct (negb (new_from_fd_rc d =? 0)); [by eexists|].
  destruct (negb (grab_rc d =? 0)); [by eexists|].
  replace (negb (has_event_code d EV_ABS ABS_X)
           || negb (has_event_code d EV_ABS ABS_Y)) with true
    by (destruct Hcap as [-> | ->]; [done|by rewrite orb_true_r]).
  by eexists.
Qed.
End Process.

(** ** The claims on concrete runs, with the Linux values of the codes *)

(** C8.  When the grab fails, both tools print the error and leave [main]
    through [return 1]: the handle allocated by [libevdev_new_from_fd] is
    not freed and the descriptor is not closed.  The missing-axes path of
    the touchpad tool, which goes through the label [out], releases both. *)
Theorem main_grab_failure_returns_without_release :
  MouseDpiTool.main example_argv busy_device
  = Return 1 [c_open 3; c_libevdev_new_from_fd 0; c_libevdev_grab (-16);
              c_stderr "Error: cannot grab the device";
              c_stderr "Use fuser -v to find processes"]
  /\ TouchpadEdgeDetector.main example_argv busy_device
     = Return 1 [c_open 3; c_libevdev_new_from_fd 0; c_libevdev_grab (-16);
                 c_stderr "Error: cannot grab the device";
                 c_stderr "Use fuser -v to find processes"]
  /\ fd_leaked (outcome_log (MouseDpiTool.main example_argv busy_device))
     = true
  /\ handle_leaked (outcome_log (MouseDpiTool.main example_argv busy_device))
     = true
  /\ fd_leaked
       (outcome_log (TouchpadEdgeDetector.main example_argv busy_device))
     = true
  /\ handle_leaked
       (outcome_log (TouchpadEdgeDetector.main example_argv busy_device))
     = true
  /\ TouchpadEdgeDetector.main example_argv relative_device
     = Return 1 [c_open 3; c_libevdev_new_from_fd 0; c_libevdev_grab 0;
                 c_libevdev_ungrab;
                 c_stderr "Error: this device does not have abs axes";
                 c_libevdev_free; c_close 3].
Proof. repeat split. Qed.

(** C3 as stated fails: two EV_SYN events exactly 3,000,000 microseconds
    apart, with a REL_X event of value 5 between them.  No reset takes
    place: the distance is still 5 and the window index has moved to 2. *)
Lemma idle_gap_of_exactly_three_seconds_keeps_distance :
  let e1 := syn_at 1000000 in
  let e2 := syn_at 4000000 in
  let s1 := MouseDpiTool.handle_events MouseDpiTool.initial [e1; rel_x 5] in
  let s2 := snd (MouseDpiTool.handle_event s1 e2) in
  3000000 <= MouseDpiTool.tv2us (time e2) - MouseDpiTool.tv2us (time e1)
  /\ MouseDpiTool.distance (MouseDpiTool.m s2) = 5
  /\ MouseDpiTool.event_times_index s2 = 2%nat
  /\ ~ (MouseDpiTool.distance (MouseDpiTool.m s2) = 0
        /\ MouseDpiTool.frequency (MouseDpiTool.m s2) = Some 0%Q
        /\ MouseDpiTool.event_times_index s2 = 0%nat
        /\ MouseDpiTool.event_list_valid s2 = false).
Proof.
  split; [vm_compute; discriminate|].
  split; [reflexivity|]. split; [reflexivity|].
  intros [Hd _]. vm_compute in Hd. discriminate Hd.
Qed.

Lemma idle_reset_iff_gap_exceeds_three_seconds_witness :
  (let s1 := MouseDpiTool.handle_events MouseDpiTool.initial
               [syn_at 1000000; rel_x 5] in
   let s2 := snd (MouseDpiTool.handle_event s1 (syn_at 4000001)) in
   MouseDpiTool.distance (MouseDpiTool.m s2) = 0
   /\ MouseDpiTool.frequency (MouseDpiTool.m s2) = Some 0%Q
   /\ MouseDpiTool.event_times_index s2 = 0%nat
   /\ MouseDpiTool.event_list_valid s2 = false)
  /\ (let s1 := MouseDpiTool.handle_events MouseDpiTool.initial
                  [syn_at 1000000; rel_x 5] in
      let s2 := snd (MouseDpiTool.handle_event s1 (syn_at 4000000)) in
      MouseDpiTool.distance (MouseDpiTool.m s2)
      = MouseDpiTool.distance (MouseDpiTool.m s1)).
Proof.
  split.
  - apply (proj1 (idle_reset_iff_gap_exceeds_three_seconds
                    MouseDpiTool.initial (syn_at 1000000) [rel_x 5]
                    (syn_at 4000001) eq_refl
                    ltac:(repeat constructor; discriminate)
                    eq_refl eq_refl)).
    reflexivity.
  - apply (proj2 (idle_reset_iff_gap_exceeds_three_seconds
                    MouseDpiTool.initial (syn_at 1000000) [rel_x 5]
                    (syn_at 4000000) eq_refl
                    ltac:(repeat constructor; discriminate)
                    eq_refl eq_refl)).
    vm_compute. discriminate.
Defined.

Lemma first_sync_takes_reset_branch_witness :
  MouseDpiTool.handle_event
    (MouseDpiTool.handle_events MouseDpiTool.initial [rel_x 5])
    (syn_at 5000000)
  = (0, {| MouseDpiTool.m :=
             {| MouseDpiTool.distance := 0;
                MouseDpiTool.frequency := Some 0%Q;
                MouseDpiTool.us := MouseDpiTool.tv2us (time (syn_at 5000000)) |};
           MouseDpiTool.event_times := replicate MouseDpiTool.EVENT_SIZ 0;
           MouseDpiTool.event_times_index := 0;
           MouseDpiTool.event_list_valid := false;
           MouseDpiTool.progress := 0;
           MouseDpiTool.stdout := [] |}).
Proof.
  apply (first_sync_takes_reset_branch [rel_x 5] (syn_at 5000000)).
  - repeat constructor. discriminate.
  - reflexivity.
  - reflexivity.
Defined.

(** C4 as stated fails: two REL_X events of value INT_MAX and 1 have the
    signed sum 2^31, which the [int] distance field cannot hold; the field
    wraps to INT_MIN, and so does the distance of the summary.  A single
    REL_X event of value INT_MIN leaves the field at the sum, but the
    summary shows [abs] of it, which is INT_MIN again and not the absolute
    value 2^31 of the sum. *)
Lemma distance_overflow_is_not_the_sum :
  (let evs := [rel_x 2147483647; rel_x 1] in
   let s := MouseDpiTool.handle_events MouseDpiTool.initial evs in
   distance_since_reset evs = 2147483648
   /\ MouseDpiTool.distance (MouseDpiTool.m s) = -2147483648
   /\ MouseDpiTool.sum_distance
        (snd (MouseDpiTool.print_summary (MouseDpiTool.m s)))
      = -2147483648
   /\ ~ (MouseDpiTool.distance (MouseDpiTool.m s) = distance_since_reset evs
         /\ MouseDpiTool.sum_distance
              (snd (MouseDpiTool.print_summary (MouseDpiTool.m s)))
            = Z.abs (distance_since_reset evs)))
  /\ (let evs := [rel_x (-2147483648)] in
      let s := MouseDpiTool.handle_events MouseDpiTool.initial evs in
      distance_since_reset evs = -2147483648
      /\ MouseDpiTool.distance (MouseDpiTool.m s) = -2147483648
      /\ MouseDpiTool.sum_distance
           (snd (MouseDpiTool.print_summary (MouseDpiTool.m s)))
         = -2147483648
      /\ ~ (MouseDpiTool.distance (MouseDpiTool.m s)
            = distance_since_reset evs
            /\ MouseDpiTool.sum_distance
                 (snd (MouseDpiTool.print_summary (MouseDpiTool.m s)))
               = Z.abs (distance_since_reset evs))).
Proof.
  split.
  - split; [reflexivity|]. split; [reflexivity|]. split; [reflexivity|].
    intros [Hd _]. vm_compute in Hd. discriminate Hd.
  - split; [reflexivity|]. split; [reflexivity|]. split; [reflexivity|].
    intros [_ Hp]. vm_compute in Hp. discriminate Hp.
Qed.

Lemma distance_is_wrapped_sum_since_reset_witness :
  let evs := [rel_x 5; syn_at 1000; rel_x (-12)] in
  let s := MouseDpiTool.handle_events MouseDpiTool.initial evs in
  MouseDpiTool.distance (MouseDpiTool.m s) = -7
  /\ MouseDpiTool.sum_distance
       (snd (MouseDpiTool.print_summary (MouseDpiTool.m s)))
     = 7.
Proof.
  destruct (distance_is_wrapped_sum_since_reset
              [rel_x 5; syn_at 1000; rel_x (-12)]) as (_ & _ & Hd & Hp).
  split.
  - apply Hd. unfold int_range. vm_compute. split; discriminate.
  - apply Hp. vm_compute. discriminate.
Defined.

(** C5 as stated fails: after a single ABS_X event the X bounds are both
    5, but [top] and [bottom] still hold INT_MAX and INT_MIN. *)
Lemma bounds_after_one_x_event_not_ordered :
  let d := TouchpadEdgeDetector.dim
             (TouchpadEdgeDetector.handle_events
                TouchpadEdgeDetector.initial [abs_x 5]) in
  TouchpadEdgeDetector.left d = 5
  /\ TouchpadEdgeDetector.right d = 5
  /\ TouchpadEdgeDetector.top d = INT_MAX
  /\ TouchpadEdgeDetector.bottom d = INT_MIN
  /\ ~ (TouchpadEdgeDetector.left d <= TouchpadEdgeDetector.right d
        /\ TouchpadEdgeDetector.top d <= TouchpadEdgeDetector.bottom d).
Proof.
  repeat split. intros [_ H]. vm_compute in H. by apply H.
Qed.

Lemma bounds_are_min_max_of_delivered_values_witness :
  let evs := [abs_x 5; abs_mt_y 9; abs_x 2; abs_mt_y 11] in
  let d := TouchpadEdgeDetector.dim
             (TouchpadEdgeDetector.handle_events
                TouchpadEdgeDetector.initial evs) in
  (TouchpadEdgeDetector.left d <= TouchpadEdgeDetector.right d
   /\ is_min_max (TouchpadEdgeDetector.left d) (TouchpadEdgeDetector.right d)
                 (x_values evs))
  /\ (TouchpadEdgeDetector.top d <= TouchpadEdgeDetector.bottom d
      /\ is_min_max (TouchpadEdgeDetector.top d)
                    (TouchpadEdgeDetector.bottom d) (y_values evs)).
Proof.
  pose proof (bounds_are_min_max_of_delivered_values
                [abs_x 5; abs_mt_y 9; abs_x 2; abs_mt_y 11]) as H.
  destruct H as (Hx & Hy & _).
  - repeat constructor; vm_compute; discriminate.
  - split; [apply Hx|apply Hy]; vm_compute; discriminate.
Defined.

Lemma main_without_abs_axes_exits_before_mainloop_witness :
  exists log,
    TouchpadEdgeDetector.main example_argv relative_device = Return 1 log
    /\ called_mainloop log = false.
Proof.
  apply (main_without_abs_axes_exits_before_mainloop
           example_argv relative_device).
  left. reflexivity.
Defined.

Lemma desync_read_ends_the_loop_witness :
  (mainloop MouseDpiTool.handle_event (script desync_device)
            MouseDpiTool.initial
   = Some (1, MouseDpiTool.handle_events MouseDpiTool.initial [rel_x 7])
   /\ exit_status (MouseDpiTool.main example_argv desync_device) = Some 1)
  /\ (mainloop TouchpadEdgeDetector.handle_event (script desync_device)
               TouchpadEdgeDetector.initial
      = Some (1, TouchpadEdgeDetector.initial)
      /\ exit_status (TouchpadEdgeDetector.main example_argv desync_device)
         = Some 1).
Proof.
  pose proof (desync_read_ends_the_loop example_argv desync_device
                [PollRet 1 0;
                 NextEvent LIBEVDEV_READ_STATUS_SUCCESS (rel_x 7)]
                [NextEvent LIBEVDEV_READ_STATUS_SUCCESS (rel_x 9)]
                (rel_x 0) eq_refl) as [Hmouse Htouchpad].
  split; [apply Hmouse|apply Htouchpad]; reflexivity.
Defined.

(** * Further properties *)

From Stdlib Require Import ZifyNat.
From stdpp Require Import sorting.

Local Open Scope Z_scope.

(** Linear arithmetic with [mod] by a constant. *)
Ltac mod_lia := zify; Z.to_euclidean_division_equations; lia.

(** ** The comparison function and the sorted differences *)

Section Comparison.
Import MouseDpiTool.

Lemma double_cmp_le (x y : Z) : (double_cmp x y <=? 0) = (x <=? y).
Proof.
  unfold double_cmp. rewrite Z.gtb_ltb.
  destruct (Z.ltb_spec x y), (Z.ltb_spec y x), (Z.leb_spec x y);
    simpl; lia.
Qed.

(** X1.  [double_cmp] is a three-way comparison for the usual order: it
    returns -1, 0 or 1 as the first number is smaller than, equal to or
    greater than the second, swapping the arguments negates the result,
    and "not greater" is transitive.  This is what [qsort] requires of
    its comparison function to sort in ascending order. *)
Theorem double_cmp_three_way (x y z : Z) :
  (double_cmp x y = -1 <-> x < y)
  /\ (double_cmp x y = 0 <-> x = y)
  /\ (double_cmp x y = 1 <-> y < x)
  /\ double_cmp y x = - double_cmp x y
  /\ (double_cmp x y <= 0 -> double_cmp y z <= 0 -> double_cmp x z <= 0).
Proof.
  unfold double_cmp. rewrite !Z.gtb_ltb.
  destruct (Z.ltb_spec x y), (Z.ltb_spec y x), (Z.ltb_spec y z),
    (Z.ltb_spec z y), (Z.ltb_spec x z), (Z.ltb_spec z x);
    repeat split; intros; lia.
Qed.

Lemma qsort_insert_Sorted (x : Z) (l : list Z) :
  Sorted Z.le l -> Sorted Z.le (qsort_insert double_cmp x l).
Proof.
  induction l as [|y l IH]; intros Hl; simpl.
  - repeat constructor.
  - rewrite double_cmp_le. destruct (Z.leb_spec x y) as [Hxy|Hxy].
    + constructor; [done|]. by constructor.
    + apply Sorted_inv in Hl as [Hl Hhd]. constructor; [by apply IH|].
      destruct l as [|z l]; simpl.
      * constructor. lia.
      * rewrite double_cmp_le. apply HdRel_inv in Hhd.
        destruct (Z.leb_spec x z); constructor; lia.
Qed.

Lemma qsort_cells_Sorted (l : list Z) :
  Sorted Z.le (qsort_cells double_cmp l).
Proof.
  induction l as [|x l IH]; simpl; [constructor|].
  by apply qsort_insert_Sorted.
Qed.

(** Sorting does not depend on the order in which the numbers were
    written. *)
Lemma qsort_cells_Permutation_eq (l1 l2 : list Z) :
  l1 ≡ₚ l2 -> qsort_cells double_cmp l1 = qsort_cells double_cmp l2.
Proof.
  intros Hperm. apply (Sorted_unique Z.le); try apply qsort_cells_Sorted.
  by rewrite !qsort_cells_Permutation.
Qed.
End Comparison.

(** ** The ring of forward differences *)

Section RingDifferences.
Import MouseDpiTool.

Lemma omap_length_le {A B : Type} (f : A -> option B) (l : list A) :
  (length (omap f l) <= length l)%nat.
Proof.
  induction l as [|x l IH]; csimpl; [lia|].
  destruct (f x); csimpl; lia.
Qed.

Lemma omap_length_all {A B : Type} (f : A -> option B) (l : list A) :
  length (omap f l) = length l -> Forall (fun x => is_Some (f x)) l.
Proof.
  induction l as [|x l IH]; csimpl; intros Hlen; [constructor|].
  pose proof (omap_length_le f l).
  destruct (f x) eqn:Hfx; csimpl in Hlen; [|lia].
  constructor; [by rewrite Hfx|]. apply IH. lia.
Qed.

Lemma forward_difference_Some (w : list Z) (i : nat) (d : Z) :
  forward_difference w i = Some d ->
  w !!! i < w !!! ((i + 1) `mod` EVENT_SIZ)%nat
  /\ d = w !!! ((i + 1) `mod` EVENT_SIZ)%nat - w !!! i.
Proof.
  unfold forward_difference.
  destruct (Z.ltb_spec (w !!! i) (w !!! ((i + 1) `mod` EVENT_SIZ)%nat));
    [|done].
  intros [= <-]. done.
Qed.

(** Around a ring the timestamps cannot increase at every position. *)
Lemma ring_differences_length (w : list Z) :
  (length (ring_differences w) <= EVENT_SIZ - 1)%nat.
Proof.
  unfold ring_differences, forward_differences.
  pose proof (omap_length_le (forward_difference w) (seq 0 EVENT_SIZ)) as Hle.
  rewrite length_seq in Hle.
  destruct (decide (length (omap (forward_difference w) (seq 0 EVENT_SIZ))
                    = EVENT_SIZ)) as [Heq|Hne]; [|lia].
  exfalso.
  assert (Forall (fun i => is_Some (forward_difference w i)) (seq 0 EVENT_SIZ))
    as Hall.
  { apply omap_length_all. rewrite length_seq. exact Heq. }
  rewrite Forall_forall in Hall.
  assert (forall i, (i < EVENT_SIZ)%nat ->
            w !!! i < w !!! ((i + 1) `mod` EVENT_SIZ)%nat) as Hstep.
  { intros i Hi. destruct (Hall i) as [d Hd]; [apply elem_of_seq; lia|].
    by apply forward_difference_Some in Hd as [? _]. }
  assert (adjacent_increasing w) as Hinc.
  { intros i Hi. specialize (Hstep i).
    rewrite Nat.mod_small in Hstep by (unfold EVENT_SIZ in *; lia).
    rewrite Nat.add_1_r in Hstep. apply Hstep. unfold EVENT_SIZ in *. lia. }
  pose proof (adjacent_increasing_first w (EVENT_SIZ - 1) Hinc) as Hfirst.
  specialize (Hstep (EVENT_SIZ - 1)%nat).
  change ((EVENT_SIZ - 1 + 1) `mod` EVENT_SIZ)%nat with 0%nat in Hstep.
  unfold EVENT_SIZ in *. lia.
Qed.

Lemma ring_differences_positive (w : list Z) :
  Forall (fun d => 0 < d) (ring_differences w).
Proof.
  unfold ring_differences, forward_differences.
  apply Forall_forall. intros d Hd.
  apply list_elem_of_omap in Hd as (i & _ & Hd).
  apply forward_difference_Some in Hd. lia.
Qed.

(** X2.  For every window the loop of [get_frequency] writes one cell per
    ring position whose successor is strictly later, in ring order; there
    are never more than 31 of them, so no difference is dropped by the
    bound on [d_index] and the array is never overrun. *)
Theorem get_frequency_loop_writes_all_differences (w : list Z) :
  let '(differences, d_index) := get_frequency_loop w in
  d_index = length (ring_differences w)
  /\ (d_index <= EVENT_SIZ - 1)%nat
  /\ length differences = (EVENT_SIZ - 1)%nat
  /\ differences
     = (Some <$> ring_differences w)
         ++ replicate (EVENT_SIZ - 1 - d_index) None.
Proof.
  pose proof (ring_differences_length w) as Hlen.
  rewrite get_frequency_loop_spec. unfold written_cells.
  rewrite take_ge by done.
  repeat split; [done|].
  rewrite length_app, length_fmap, length_replicate. lia.
Qed.

(** X3.  [get_frequency] returns a determinate value exactly when at
    least 17 ring positions have a strictly later successor; with 16 or
    fewer the cell it reads was never written. *)
Theorem get_frequency_determinate_iff (w : list Z) :
  is_Some (get_frequency w)
  <-> (EVENT_SIZ / 2 < length (ring_differences w))%nat.
Proof.
  rewrite get_frequency_spec, take_ge by apply ring_differences_length.
  rewrite fmap_is_Some, lookup_lt_is_Some, qsort_cells_length. done.
Qed.

(** X4.  Whenever [get_frequency] returns a value, it is 1,000,000
    divided by one of the strictly positive forward differences of the
    window, hence a positive frequency. *)
Theorem get_frequency_value (w : list Z) (q : Q) :
  get_frequency w = Some q ->
  exists d, d ∈ ring_differences w
            /\ 0 < d
            /\ q = (1000000 / inject_Z d)%Q
            /\ (0 < q)%Q.
Proof.
  rewrite get_frequency_spec, take_ge by apply ring_differences_length.
  intros Hq. apply fmap_Some in Hq as (d & Hd & ->).
  assert (d ∈ ring_differences w) as Hin.
  { rewrite <- (qsort_cells_Permutation double_cmp).
    eapply list_elem_of_lookup_2. exact Hd. }
  pose proof (ring_differences_positive w) as Hpos.
  rewrite Forall_forall in Hpos. specialize (Hpos d Hin).
  exists d. repeat split; [done..|].
  apply Qlt_shift_div_l.
  - unfold Qlt. simpl. lia.
  - reflexivity.
Qed.

Lemma get_frequency_value_witness :
  exists d, d ∈ ring_differences ramp_window
            /\ 0 < d
            /\ (1000000 # 17) = (1000000 / inject_Z d)%Q
            /\ (0 < 1000000 # 17)%Q.
Proof.
  apply (get_frequency_value ramp_window (1000000 # 17)).
  vm_compute. reflexivity.
Defined.

(** X5.  The written cells, once sorted, are in ascending order and hold
    exactly the forward differences of the window. *)
Theorem get_frequency_sorted_cells (w : list Z) :
  let '(differences, d_index) := get_frequency_loop w in
  exists sorted,
    qsort differences d_index double_cmp_cells
    = (Some <$> sorted) ++ replicate (EVENT_SIZ - 1 - d_index) None
    /\ Sorted Z.le sorted
    /\ sorted ≡ₚ ring_differences w.
Proof.
  pose proof (ring_differences_length w) as Hlen.
  rewrite get_frequency_loop_spec. unfold written_cells.
  rewrite take_ge by done.
  exists (qsort_cells double_cmp (ring_differences w)).
  split; [apply qsort_written_prefix|].
  split; [apply qsort_cells_Sorted|apply qsort_cells_Permutation].
Qed.
End RingDifferences.

(** ** The window is a ring *)

Section Rotation.
Import MouseDpiTool.

Lemma rotate_nat_add_mod (k i n : nat) :
  n <> 0%nat -> rotate_nat_add k i n = ((k + i) `mod` n)%nat.
Proof.
  intros Hn. unfold rotate_nat_add.
  rewrite <- Nat2Z.inj_add, <- Nat2Z.inj_mod. apply Nat2Z.id.
Qed.

Lemma rotate_Permutation {A : Type} (k : nat) (l : list A) : rotate k l ≡ₚ l.
Proof.
  unfold rotate. rewrite Permutation_app_comm. by rewrite take_drop.
Qed.

Lemma omap_id_fmap {A B : Type} (f : A -> option B) (l : list A) :
  omap f l = omap id (f <$> l).
Proof.
  induction l as [|x l IH]; csimpl; [done|].
  rewrite IH. by destruct (f x).
Qed.

Lemma lookup_total_rotate (w : list Z) (k i : nat) :
  length w = EVENT_SIZ -> (i < EVENT_SIZ)%nat ->
  rotate k w !!! i = w !!! ((k + i) `mod` EVENT_SIZ)%nat.
Proof.
  intros Hlen Hi. rewrite !list_lookup_total_alt.
  rewrite lookup_rotate_r by lia. rewrite Hlen.
  by rewrite rotate_nat_add_mod.
Qed.

Lemma forward_difference_rotate (w : list Z) (k i : nat) :
  length w = EVENT_SIZ -> (i < EVENT_SIZ)%nat ->
  forward_difference (rotate k w) i
  = forward_difference w ((k + i) `mod` EVENT_SIZ)%nat.
Proof.
  intros Hlen Hi. unfold forward_difference.
  assert (((i + 1) `mod` EVENT_SIZ) < EVENT_SIZ)%nat
    by (apply Nat.mod_upper_bound; discriminate).
  rewrite !lookup_total_rotate by done.
  replace ((k + (i + 1) `mod` EVENT_SIZ) `mod` EVENT_SIZ)%nat
    with (((k + i) `mod` EVENT_SIZ + 1) `mod` EVENT_SIZ)%nat; [done|].
  rewrite Nat.Div0.add_mod_idemp_l, Nat.Div0.add_mod_idemp_r.
  f_equal. lia.
Qed.

Lemma forward_difference_cells_rotate (w : list Z) (k : nat) :
  length w = EVENT_SIZ ->
  forward_difference (rotate k w) <$> seq 0 EVENT_SIZ
  = rotate k (forward_difference w <$> seq 0 EVENT_SIZ).
Proof.
  intros Hlen. apply list_eq. intros i.
  destruct (decide (i < EVENT_SIZ)%nat) as [Hi|Hi].
  - rewrite lookup_rotate_r by (by rewrite length_fmap, length_seq).
    rewrite length_fmap, length_seq, rotate_nat_add_mod by discriminate.
    rewrite !list_lookup_fmap.
    assert ((k + i) `mod` EVENT_SIZ < EVENT_SIZ)%nat
      by (apply Nat.mod_upper_bound; discriminate).
    rewrite !lookup_seq_lt by done. simpl.
    f_equal. by apply forward_difference_rotate.
  - rewrite !lookup_ge_None_2; [done|..].
    + rewrite length_rotate, length_fmap, length_seq. lia.
    + rewrite length_fmap, length_seq. lia.
Qed.

Lemma ring_differences_rotate (w : list Z) (k : nat) :
  length w = EVENT_SIZ -> ring_differences (rotate k w) ≡ₚ ring_differences w.
Proof.
  intros Hlen. unfold ring_differences, forward_differences.
  rewrite (omap_id_fmap (forward_difference (rotate k w))).
  rewrite (omap_id_fmap (forward_difference w)).
  rewrite forward_difference_cells_rotate by done.
  by rewrite rotate_Permutation.
Qed.

Lemma sorted_ring_differences_rotate (w : list Z) (k : nat) :
  length w = EVENT_SIZ ->
  qsort_cells double_cmp (take (EVENT_SIZ - 1) (ring_differences (rotate k w)))
  = qsort_cells double_cmp (take (EVENT_SIZ - 1) (ring_differences w)).
Proof.
  intros Hlen. rewrite !take_ge by apply ring_differences_length.
  apply qsort_cells_Permutation_eq. by apply ring_differences_rotate.
Qed.

(** X6.  The estimate does not depend on where the ring starts: rotating
    the 32 timestamps of the window, as the write index of
    [handle_event] does while the window is refilled, leaves the result
    of [get_frequency] unchanged. *)
Theorem get_frequency_rotate (w : list Z) (k : nat) :
  length w = EVENT_SIZ -> get_frequency (rotate k w) = get_frequency w.
Proof.
  intros Hlen. rewrite !get_frequency_spec.
  by rewrite sorted_ring_differences_rotate.
Qed.

Lemma get_frequency_rotate_witness :
  get_frequency (rotate 5 ramp_window) = get_frequency ramp_window.
Proof. apply (get_frequency_rotate ramp_window 5). reflexivity. Defined.
End Rotation.

(** ** The window of the mouse tool between idle resets *)

Section MouseRing.
Import MouseDpiTool.
Context `{codes : evdev_codes}.

Lemma syn_count_times (evs : list input_event) :
  syn_count evs = length (syn_times evs).
Proof. unfold syn_count, syn_times. by rewrite length_fmap. Qed.

(** Conversion to [double] keeps a list of counts below 2^53. *)
Lemma double_of_uint64_fmap_small (l : list Z) :
  Forall (fun t => t < 2 ^ 53) l -> double_of_uint64 <$> l = l.
Proof.
  induction 1 as [|t l Ht _ IH]; [done|].
  cbn [fmap list_fmap]. rewrite double_of_uint64_small by done.
  f_equal. exact IH.
Qed.

(** The state after a run without idle reset: where the index and the
    flag stand, what the touched cells hold (each timestamp as the
    [double] nearest to it) and which cells are left. *)
Lemma handle_events_ring (s : state) (evs : list input_event) :
  length (event_times s) = EVENT_SIZ ->
  (event_times_index s < EVENT_SIZ)%nat ->
  no_idle_reset (us (m s)) evs = true ->
  let s' := handle_events s evs in
  let n := syn_count evs in
  event_times_index s' = ((event_times_index s + n) `mod` EVENT_SIZ)%nat
  /\ event_list_valid s'
     = event_list_valid s || (EVENT_SIZ <=? event_times_index s + n)%nat
  /\ length (event_times s') = EVENT_SIZ
  /\ length (stdout s') = (length (stdout s) + n)%nat
  /\ (forall j : nat,
        (j < n)%nat -> (n <= j + EVENT_SIZ)%nat ->
        event_times s' !!! ((event_times_index s + j) `mod` EVENT_SIZ)%nat
        = double_of_uint64 (syn_times evs !!! j))
  /\ (forall c : nat,
        (forall j : nat,
            (j < n)%nat -> ((event_times_index s + j) `mod` EVENT_SIZ)%nat <> c) ->
        event_times s' !!! c = event_times s !!! c).
Proof.
  revert s. induction evs as [|ev evs IH]; intros s Hlen Hidx Hkeep.
  { unfold syn_count, syn_times.
    cbn [List.filter length handle_events foldl fmap list_fmap].
    unfold EVENT_SIZ in *. rewrite !Nat.add_0_r.
    split; [symmetry; apply Nat.mod_small; lia|].
    split.
    { destruct (Nat.leb_spec 32 (event_times_index s));
        [lia|by rewrite orb_false_r]. }
    split; [done|]. split; [done|]. split; [intros j Hj; lia|done]. }
  cbn [handle_events foldl]. fold (handle_events (snd (handle_event s ev)) evs).
  cbn [no_idle_reset] in Hkeep. unfold syn_count, syn_times. cbn [List.filter].
  destruct (Z.eqb_spec (type ev) EV_SYN) as [Hty|Hty].
  - apply andb_prop in Hkeep as [Hgap Hkeep].
    apply negb_true_iff, Z.ltb_ge in Hgap.
    destruct (handle_event_syn_keep s ev Hty Hgap)
      as (_ & Hus & Htimes & Hindex & Hvalid & _ & Hout).
    set (s1 := snd (handle_event s ev)) in *.
    assert (event_times_index s1 = ((event_times_index s + 1) `mod` EVENT_SIZ)%nat)
      as Hindex'.
    { rewrite Hindex. unfold EVENT_SIZ in *.
      destruct (Nat.eqb_spec (S (event_times_index s)) 32); mod_lia. }
    destruct (IH s1) as (Hi & Hv & Hl & Ho & Hcells & Hrest).
    { by rewrite Htimes, length_insert. }
    { rewrite Hindex'. apply Nat.mod_upper_bound. discriminate. }
    { by rewrite Hus. }
    fold (syn_count evs) in *. fold (syn_times evs) in *.
    cbn [fmap list_fmap length].
    change (list_fmap _ _ ?f ?l) with (f <$> l).
    fold (syn_times evs). fold (syn_count evs).
    unfold EVENT_SIZ in *.
    split; [rewrite Hi, Hindex'; mod_lia|].
    split.
    { rewrite Hv, Hvalid.
      destruct (Nat.eqb_spec (S (event_times_index s)) 32) as [Heq|Hne].
      - rewrite orb_true_l. symmetry. apply orb_true_intro. right.
        apply Nat.leb_le. lia.
      - f_equal. rewrite Hindex'.
        destruct (Nat.leb_spec 32 ((event_times_index s + 1) `mod` 32
                                   + syn_count evs)),
          (Nat.leb_spec 32 (event_times_index s + S (syn_count evs)));
          try done; mod_lia. }
    split; [done|]. split; [lia|]. split.
    + intros j Hj Hn. destruct j as [|j].
      * rewrite Nat.add_0_r, Nat.mod_small by lia.
        transitivity (double_of_uint64 (tv2us (time ev))); [|done].
        rewrite Hrest.
        -- rewrite Htimes. by rewrite list_lookup_total_insert_eq by lia.
        -- intros j' Hj'. rewrite Hindex'. mod_lia.
      * transitivity (double_of_uint64 (syn_times evs !!! j)); [|done].
        rewrite <- Hcells by lia. f_equal. rewrite Hindex'. mod_lia.
    + intros c Hc. rewrite Hrest.
      * rewrite Htimes. apply list_lookup_total_insert_ne.
        specialize (Hc 0%nat). rewrite Nat.add_0_r, Nat.mod_small in Hc by lia.
        apply Hc. lia.
      * intros j' Hj'. specialize (Hc (S j')).
        rewrite Hindex'. intros Heq. apply Hc; [lia|]. rewrite <- Heq. mod_lia.
  - destruct (handle_event_other s ev Hty)
      as [(Hus & _ & Ht & Hi & Hv & _ & Ho & _)|[_ Hsame]].
    + set (s1 := snd (handle_event s ev)) in *.
      destruct (IH s1) as (Hi' & Hv' & Hl' & Ho' & Hcells & Hrest).
      { by rewrite Ht. } { by rewrite Hi. } { by rewrite Hus. }
      fold (syn_count evs) in *. fold (syn_times evs) in *.
      rewrite Hi, Hv, Ht, Ho in *. done.
    + rewrite Hsame. apply (IH s); done.
Qed.
End MouseRing.

Section MouseWindow.
Import MouseDpiTool.
Context `{codes : evdev_codes}.

(** Read from the write index on, a window that has taken at least 32
    timestamps holds the 32 most recent ones in order. *)
Lemma window_recent (s : state) (evs : list input_event) :
  length (event_times s) = EVENT_SIZ ->
  (event_times_index s < EVENT_SIZ)%nat ->
  no_idle_reset (us (m s)) evs = true ->
  (EVENT_SIZ <= syn_count evs)%nat ->
  let s' := handle_events s evs in
  rotate (event_times_index s') (event_times s')
  = double_of_uint64 <$> drop (syn_count evs - EVENT_SIZ) (syn_times evs).
Proof.
  intros Hlen Hidx Hkeep Hn s'.
  destruct (handle_events_ring s evs Hlen Hidx Hkeep)
    as (Hi & Hv & Hl & _ & Hcells & _).
  fold s' in Hi, Hv, Hl, Hcells.
  apply list_eq. intros i.
  rewrite list_lookup_fmap, lookup_drop.
  destruct (decide (i < EVENT_SIZ)%nat) as [Hlt|Hge].
  - rewrite lookup_rotate_r by lia. rewrite Hl, rotate_nat_add_mod by done.
    rewrite !list_lookup_lookup_total_lt.
    + cbn [fmap option_fmap option_map]. f_equal.
      rewrite <- (Hcells (syn_count evs - EVENT_SIZ + i)%nat) by lia.
      f_equal. rewrite Hi. unfold EVENT_SIZ in *. mod_lia.
    + rewrite <- syn_count_times. lia.
    + rewrite Hl. apply Nat.mod_upper_bound. discriminate.
  - rewrite !lookup_ge_None_2; [done|..].
    + rewrite <- syn_count_times. lia.
    + rewrite length_rotate. lia.
Qed.

Lemma window_estimate (s : state) (evs : list input_event) :
  length (event_times s) = EVENT_SIZ ->
  (event_times_index s < EVENT_SIZ)%nat ->
  no_idle_reset (us (m s)) evs = true ->
  (EVENT_SIZ <= syn_count evs)%nat ->
  Forall (fun t => t < 2 ^ 53)
         (drop (syn_count evs - EVENT_SIZ) (syn_times evs)) ->
  get_frequency (event_times (handle_events s evs))
  = get_frequency (drop (syn_count evs - EVENT_SIZ) (syn_times evs)).
Proof.
  intros Hlen Hidx Hkeep Hn Hsmall.
  destruct (handle_events_ring s evs Hlen Hidx Hkeep) as (_ & _ & Hl & _).
  rewrite <- (double_of_uint64_fmap_small _ Hsmall).
  rewrite <- (window_recent s evs) by done.
  rewrite !get_frequency_spec. by rewrite sorted_ring_differences_rotate.
Qed.

(** X7.  Between idle resets the window is a ring buffer of the EV_SYN
    timestamps: once at least 32 of them have been handled, the window is
    valid and, read from the write index on, holds the 32 most recent
    timestamps in the order they arrived, each as the [double] nearest to
    it.  When these 32 timestamps are below 2^53 the window holds them
    unchanged, and the estimate taken from the window is the estimate of
    those 32 timestamps. *)
Theorem window_holds_most_recent_timestamps
    (s : state) (evs : list input_event) :
  length (event_times s) = EVENT_SIZ ->
  (event_times_index s < EVENT_SIZ)%nat ->
  no_idle_reset (us (m s)) evs = true ->
  (EVENT_SIZ <= syn_count evs)%nat ->
  let s' := handle_events s evs in
  let recent := drop (syn_count evs - EVENT_SIZ) (syn_times evs) in
  event_list_valid s' = true
  /\ rotate (event_times_index s') (event_times s')
     = double_of_uint64 <$> recent
  /\ (Forall (fun t => t < 2 ^ 53) recent ->
      rotate (event_times_index s') (event_times s') = recent
      /\ get_frequency (event_times s') = get_frequency recent).
Proof.
  intros Hlen Hidx Hkeep Hn s' recent.
  split; [|split].
  - destruct (handle_events_ring s evs Hlen Hidx Hkeep) as (_ & Hv & _).
    fold s' in Hv. rewrite Hv. apply orb_true_intro. right.
    apply Nat.leb_le. lia.
  - by apply window_recent.
  - intros Hsmall. split.
    + transitivity (double_of_uint64 <$> recent);
        [by apply window_recent|by apply double_of_uint64_fmap_small].
    + by apply window_estimate.
Qed.

End MouseWindow.

Lemma window_holds_most_recent_timestamps_witness :
  let s' := MouseDpiTool.handle_events MouseDpiTool.initial steady_events in
  let recent := drop (syn_count steady_events - MouseDpiTool.EVENT_SIZ)
                     (syn_times steady_events) in
  MouseDpiTool.event_list_valid s' = true
  /\ rotate (MouseDpiTool.event_times_index s') (MouseDpiTool.event_times s')
     = recent
  /\ MouseDpiTool.get_frequency (MouseDpiTool.event_times s')
     = MouseDpiTool.get_frequency recent.
Proof.
  destruct (window_holds_most_recent_timestamps MouseDpiTool.initial
              steady_events) as (Hv & _ & Hrecent).
  - reflexivity.
  - vm_compute. lia.
  - vm_compute. reflexivity.
  - vm_compute. lia.
  - split; [exact Hv|]. apply Hrecent.
    match goal with
    | |- Forall _ ?l => let l' := eval vm_compute in l in change l with l'
    end.
    repeat (constructor; [reflexivity|]). constructor.
Defined.


(** ** The peak frequency and the progress lines of the mouse tool *)

Section MousePeak.
Import MouseDpiTool.
Context `{codes : evdev_codes}.

Lemma dmax_Some (a : option Q) (f r : Q) :
  dmax a (Some f) = Some r ->
  (f <= r)%Q /\ (forall x, a = Some x -> (x <= r)%Q).
Proof.
  destruct a as [x|]; [|done]. simpl. intros [= <-].
  destruct (Qle_bool x f) eqn:Hle.
  - apply Qle_bool_iff in Hle. split; [apply Qle_refl|].
    by intros ? [= <-].
  - assert (~ (x <= f)%Q) as Hnle
      by (rewrite <- Qle_bool_iff; by rewrite Hle).
    apply Qnot_le_lt in Hnle. split; [by apply Qlt_le_weak|].
    intros ? [= <-]. apply Qle_refl.
Qed.

(** One event that does not reset keeps the peak frequency or raises
    it; an indeterminate peak stays indeterminate. *)
Lemma handle_event_peak (s : state) (ev : input_event) :
  no_idle_reset (us (m s)) [ev] = true ->
  let s' := snd (handle_event s ev) in
  match frequency (m s'), frequency (m s) with
  | Some f', Some f => (f <= f')%Q
  | Some _, None => False
  | None, _ => True
  end.
Proof.
  cbn [no_idle_reset]. destruct (Z.eqb_spec (type ev) EV_SYN) as [Hty|Hty].
  - rewrite andb_true_r. intros Hgap.
    apply negb_true_iff, Z.ltb_ge in Hgap.
    destruct (handle_event_syn_keep s ev Hty Hgap)
      as (_ & _ & _ & _ & _ & Hf & _).
    cbn zeta. rewrite Hf.
    destruct (event_list_valid _).
    + destruct (frequency (m s)) as [f|].
      * destruct (dmax _ _) as [r|] eqn:Hr; [|done].
        by apply dmax_Some in Hr as [? _].
      * by destruct (get_frequency _).
    + destruct (frequency (m s)); [apply Qle_refl|done].
  - intros _.
    destruct (handle_event_other s ev Hty) as [(_ & Hf & _)|[_ Hsame]];
      cbn zeta; [rewrite Hf|rewrite Hsame];
      (destruct (frequency (m s)); [apply Qle_refl|done]).
Qed.

Lemma no_idle_reset_cons (last_us : Z) (ev : input_event)
    (evs : list input_event) (s : state) :
  us (m s) = last_us ->
  no_idle_reset last_us (ev :: evs) = true ->
  no_idle_reset last_us [ev] = true
  /\ no_idle_reset (us (m (snd (handle_event s ev)))) evs = true.
Proof.
  intros Hus. cbn [no_idle_reset].
  destruct (Z.eqb_spec (type ev) EV_SYN) as [Hty|Hty].
  - intros [Hgap Hkeep]%andb_prop. rewrite Hgap. split; [done|].
    by rewrite handle_event_syn_us.
  - intros Hkeep. split; [done|].
    destruct (handle_event_other s ev Hty) as [(-> & _)|[_ ->]];
      by rewrite Hus.
Qed.

(** X9.  Between idle resets the peak frequency never decreases: if it
    is determinate before and after a run of events without reset, the
    value after is at least the value before. *)
Theorem peak_frequency_never_decreases
    (s : state) (evs : list input_event) (f f' : Q) :
  no_idle_reset (us (m s)) evs = true ->
  frequency (m s) = Some f ->
  frequency (m (handle_events s evs)) = Some f' ->
  (f <= f')%Q.
Proof.
  revert s f. induction evs as [|ev evs IH]; intros s f Hkeep Hf Hf'.
  - cbn in Hf'. rewrite Hf in Hf'. injection Hf' as ->. apply Qle_refl.
  - cbn [handle_events foldl] in Hf'.
    fold (handle_events (snd (handle_event s ev)) evs) in Hf'.
    destruct (no_idle_reset_cons _ ev evs s eq_refl Hkeep) as [Hev Hevs].
    pose proof (handle_event_peak s ev Hev) as Hstep. cbn zeta in Hstep.
    rewrite Hf in Hstep.
    destruct (frequency (m (snd (handle_event s ev)))) as [f1|] eqn:Hf1.
    + apply Qle_trans with f1; [done|].
      by apply (IH (snd (handle_event s ev)) f1).
    + exfalso. clear -IH Hevs Hf1 Hf'.
      set (s1 := snd (handle_event s ev)) in *. clearbody s1.
      clear IH. revert s1 Hevs Hf1 Hf'.
      induction evs as [|e evs IH]; intros s1 Hevs Hf1 Hf'.
      * cbn in Hf'. congruence.
      * cbn [handle_events foldl] in Hf'.
        fold (handle_events (snd (handle_event s1 e)) evs) in Hf'.
        destruct (no_idle_reset_cons _ e evs s1 eq_refl Hevs) as [He Hes].
        pose proof (handle_event_peak s1 e He) as Hstep. cbn zeta in Hstep.
        rewrite Hf1 in Hstep.
        destruct (frequency (m (snd (handle_event s1 e)))) eqn:Hf2; [done|].
        by apply (IH (snd (handle_event s1 e))).
Qed.
End MousePeak.

Lemma peak_frequency_never_decreases_witness :
  (0 <= 1000000 # 1000)%Q.
Proof.
  apply (peak_frequency_never_decreases MouseDpiTool.initial steady_events
           0%Q (1000000 # 1000)%Q); vm_compute; reflexivity.
Defined.

Section MouseInvariants.
Import MouseDpiTool.
Context `{codes : evdev_codes}.

Lemma handle_events_preserves (P : state -> Prop) :
  (forall s ev, P s -> P (snd (handle_event s ev))) ->
  forall s evs, P s -> P (handle_events s evs).
Proof.
  intros Hstep s evs. revert s.
  induction evs as [|ev evs IH]; intros s Hs; [done|].
  cbn [handle_events foldl]. apply IH. by apply Hstep.
Qed.

Lemma int_wrap_range (z : Z) : int_range (int_wrap z).
Proof.
  unfold int_range, int_wrap, INT_MIN, INT_MAX.
  pose proof (Z.mod_pos_bound (z + 2 ^ 31) (2 ^ 32)). lia.
Qed.

(** What an EV_SYN event that does not reset writes to standard
    output. *)
Lemma handle_event_syn_keep_output (s : state) (ev : input_event) :
  type ev = EV_SYN ->
  tv2us (time ev) <= uint64_wrap (us (m s) + 3000000) ->
  let s' := snd (handle_event s ev) in
  stdout s'
  = stdout s ++
      [ {| shown_distance := abs (distance (m s));
           shown_frequency := frequency (m s');
           shown_status :=
             if progress s =? 0 then "|"%char
             else if progress s =? 1 then "/"%char
             else if progress s =? 2 then "-"%char
             else if progress s =? 3 then backslash
             else "?"%char |} ]
  /\ progress s' = Z.rem (progress s + 1) 4.
Proof.
  intros Hty Hgap. unfold handle_event.
  rewrite (proj2 (Z.eqb_eq _ _) Hty).
  by rewrite (proj2 (Z.ltb_ge _ _) Hgap).
Qed.

(** Every event changes the output and the spinner counter together, or
    leaves both. *)
Lemma handle_event_output (s : state) (ev : input_event) :
  let s' := snd (handle_event s ev) in
  (stdout s' = stdout s /\ progress s' = progress s)
  \/ (exists line,
        stdout s' = stdout s ++ [line]
        /\ progress s' = Z.rem (progress s + 1) 4
        /\ shown_distance line = abs (distance (m s))
        /\ shown_status line
           = (if progress s =? 0 then "|"%char
              else if progress s =? 1 then "/"%char
              else if progress s =? 2 then "-"%char
              else if progress s =? 3 then backslash
              else "?"%char)).
Proof.
  destruct (decide (type ev = EV_SYN)) as [Hty|Hty].
  - destruct (Z.lt_ge_cases (uint64_wrap (us (m s) + 3000000))
                            (tv2us (time ev))) as [Hgap|Hgap].
    + left. by rewrite handle_event_syn_reset.
    + right. destruct (handle_event_syn_keep_output s ev Hty Hgap) as [Ho Hp].
      eexists. split; [exact Ho|]. by split.
  - left. destruct (handle_event_other s ev Hty)
      as [(_ & _ & _ & _ & _ & ? & ? & _)|[_ ->]]; done.
Qed.

(** X10.  Whatever events arrive, the window keeps its 32 cells and the
    write index stays below 32, so [handle_event] never writes outside
    [event_times]; the distance stays an [int]. *)
Theorem handle_events_window_in_bounds (evs : list input_event) :
  let s := handle_events initial evs in
  length (event_times s) = EVENT_SIZ
  /\ (event_times_index s < EVENT_SIZ)%nat
  /\ int_range (distance (m s)).
Proof.
  apply (handle_events_preserves
           (fun s => length (event_times s) = EVENT_SIZ
                     /\ (event_times_index s < EVENT_SIZ)%nat
                     /\ int_range (distance (m s)))).
  - intros s ev (Hlen & Hidx & Hd).
    destruct (decide (type ev = EV_SYN)) as [Hty|Hty].
    + destruct (Z.lt_ge_cases (uint64_wrap (us (m s) + 3000000))
                              (tv2us (time ev))) as [Hgap|Hgap].
      * rewrite handle_event_syn_reset by done. cbn.
        split; [done|]. split; [unfold EVENT_SIZ; lia|done].
      * destruct (handle_event_syn_keep s ev Hty Hgap)
          as (-> & _ & -> & -> & _).
        rewrite length_insert. split; [done|]. split; [|done].
        unfold EVENT_SIZ in *.
        destruct (Nat.eqb_spec (S (event_times_index s)) 32); lia.
    + destruct (handle_event_other s ev Hty)
        as [(_ & _ & -> & -> & _ & _ & _ & ->)|[_ ->]]; [|done].
      split; [done|]. split; [done|]. apply int_wrap_range.
  - cbn. split; [done|]. split; [unfold EVENT_SIZ; lia|done].
Qed.

(** X11.  The progress lines of the mouse tool carry the glyphs
    | / - \ in rotation: the [k]-th line written since the start shows
    [spinner k], and the fall-back glyph '?' is never printed. *)
Theorem progress_lines_rotate_the_spinner
    (evs : list input_event) (k : nat) (line : progress_line) :
  stdout (handle_events initial evs) !! k = Some line ->
  shown_status line = spinner k /\ shown_status line <> "?"%char.
Proof.
  assert (forall s,
             s = handle_events initial evs ->
             progress s = Z.of_nat (length (stdout s) `mod` 4)
             /\ forall k line, stdout s !! k = Some line ->
                               shown_status line = spinner k) as Hinv.
  { intros s ->.
    apply (handle_events_preserves
             (fun s => progress s = Z.of_nat (length (stdout s) `mod` 4)
                       /\ forall k line, stdout s !! k = Some line ->
                                         shown_status line = spinner k));
      [|split; [done|intros ? ? [=]]].
    clear. intros s ev [Hp Hlines].
    destruct (handle_event_output s ev)
      as [[-> ->]|(line & -> & -> & _ & Hst)]; [done|].
    split.
    - rewrite Hp, length_app. cbn [length].
      rewrite Z.rem_mod_nonneg by lia. mod_lia.
    - intros k l Hk.
      apply lookup_app_Some in Hk as [Hk|[Hge Hk]]; [by apply Hlines|].
      apply list_lookup_singleton_Some in Hk as [Hk0 <-].
      assert (k = length (stdout s)) as -> by lia.
      rewrite Hst, Hp. unfold spinner.
      pose proof (Nat.mod_upper_bound (length (stdout s)) 4) as Hlt.
      destruct (length (stdout s) `mod` 4)%nat as [|[|[|[|n]]]];
        [done..|lia]. }
  intros Hk. destruct (Hinv _ eq_refl) as [_ Hlines].
  rewrite (Hlines k line Hk). split; [done|].
  unfold spinner. by destruct (k `mod` 4)%nat as [|[|[|n]]].
Qed.
End MouseInvariants.

Lemma progress_lines_rotate_the_spinner_witness :
  spinner 5 = "/"%char.
Proof.
  pose proof (progress_lines_rotate_the_spinner steady_events 5) as H.
  edestruct H as [Hs _]; [vm_compute; reflexivity|].
  exact (eq_sym Hs).
Defined.

(** ** The touchpad tool: bounds and progress lines *)

Section TouchpadMore.
Import TouchpadEdgeDetector.
Context `{codes : evdev_codes}.

(** X12.  From any state the bounds only widen: [left] and [top] never
    grow, [right] and [bottom] never shrink, and afterwards every value
    delivered for an axis lies within the bounds of that axis. *)
Theorem bounds_only_widen (s : state) (evs : list input_event) :
  let d := dim s in
  let d' := dim (handle_events s evs) in
  left d' <= left d
  /\ right d <= right d'
  /\ top d' <= top d
  /\ bottom d <= bottom d'
  /\ Forall (fun v => left d' <= v <= right d') (x_values evs)
  /\ Forall (fun v => top d' <= v <= bottom d') (y_values evs).
Proof.
  intros d d'.
  destruct (handle_events_bounds s evs) as (Hl & Hr & Ht & Hb).
  fold d' in Hl, Hr, Ht, Hb. fold d in Hl, Hr, Ht, Hb.
  destruct (foldl_min_spec (left d) (x_values evs)) as (Hl1 & Hl2 & _).
  destruct (foldl_max_spec (right d) (x_values evs)) as (Hr1 & Hr2 & _).
  destruct (foldl_min_spec (top d) (y_values evs)) as (Ht1 & Ht2 & _).
  destruct (foldl_max_spec (bottom d) (y_values evs)) as (Hb1 & Hb2 & _).
  rewrite <- Hl in Hl1, Hl2. rewrite <- Hr in Hr1, Hr2.
  rewrite <- Ht in Ht1, Ht2. rewrite <- Hb in Hb1, Hb2.
  rewrite Forall_forall in Hl2, Hr2, Ht2, Hb2.
  repeat split; try done.
  - apply Forall_forall. intros v Hv. split; [by apply Hl2|by apply Hr2].
  - apply Forall_forall. intros v Hv. split; [by apply Ht2|by apply Hb2].
Qed.

(** What one event does to the output of the touchpad tool. *)
Lemma touchpad_handle_event_output (s : state) (ev : input_event) :
  let s' := snd (handle_event s ev) in
  if type ev =? EV_SYN then
    dim s' = dim s
    /\ progress s' = Z.rem (progress s + 1) 4
    /\ stdout s'
       = stdout s ++
           [ {| shown := dim s;
                shown_status :=
                  if progress s =? 0 then "|"%char
                  else if progress s =? 1 then "/"%char
                  else if progress s =? 2 then "-"%char
                  else if progress s =? 3 then ascii_of_nat 92
                  else ascii_of_nat 0 |} ]
  else progress s' = progress s /\ stdout s' = stdout s.
Proof.
  unfold handle_event. destruct (type ev =? EV_SYN); [done|].
  destruct (negb _); [done|].
  destruct (_ || _); [done|]. by destruct (_ || _).
Qed.

Lemma syn_count_cons (ev : input_event) (evs : list input_event) :
  syn_count (ev :: evs)
  = ((if (type ev =? EV_SYN)%Z then 1 else 0) + syn_count evs)%nat.
Proof.
  unfold syn_count. cbn [List.filter]. by destruct (type ev =? EV_SYN).
Qed.

Lemma touchpad_handle_events_output (s : state) (evs : list input_event) :
  progress s = Z.of_nat (length (stdout s) `mod` 4) ->
  let s' := handle_events s evs in
  progress s' = Z.of_nat (length (stdout s') `mod` 4)
  /\ length (stdout s') = (length (stdout s) + syn_count evs)%nat
  /\ exists more, stdout s' = stdout s ++ more.
Proof.
  revert s. induction evs as [|ev evs IH]; intros s Hp.
  - cbn. split; [done|]. split; [lia|]. exists []. by rewrite app_nil_r.
  - cbn [handle_events foldl].
    fold (handle_events (snd (handle_event s ev)) evs).
    rewrite syn_count_cons.
    pose proof (touchpad_handle_event_output s ev) as Hev. cbn zeta in Hev.
    destruct (type ev =? EV_SYN).
    + destruct Hev as (_ & Hp1 & Ho1).
      destruct (IH (snd (handle_event s ev))) as (Hp' & Hl' & more & Hm).
      { rewrite Hp1, Ho1, Hp, length_app. cbn [length].
        rewrite Z.rem_mod_nonneg by lia. mod_lia. }
      split; [done|]. split.
      * rewrite Hl', Ho1, length_app. cbn [length]. lia.
      * eexists. by rewrite Hm, Ho1, <- app_assoc.
    + destruct Hev as (Hp1 & Ho1).
      destruct (IH (snd (handle_event s ev))) as (Hp' & Hl' & more & Hm).
      { by rewrite Hp1, Ho1. }
      split; [done|]. split; [by rewrite Hl', Ho1|].
      exists more. by rewrite Hm, Ho1.
Qed.

(** X13.  The touchpad tool prints one progress line per EV_SYN event,
    and the line printed for an EV_SYN event shows the bounds measured from
    the events before it, with the glyphs | / - \ in rotation. *)
Theorem touchpad_progress_line_shows_bounds_so_far
    (pre post : list input_event) (ev : input_event) :
  type ev = EV_SYN ->
  let s := handle_events initial (pre ++ ev :: post) in
  length (stdout s) = syn_count (pre ++ ev :: post)
  /\ stdout s !! syn_count pre
     = Some {| shown := dim (handle_events initial pre);
               shown_status := spinner (syn_count pre) |}.
Proof.
  intros Hty s.
  destruct (touchpad_handle_events_output initial (pre ++ ev :: post))
    as (_ & Hlen & _); [done|].
  split; [exact Hlen|].
  subst s. unfold handle_events. rewrite foldl_app. cbn [foldl].
  fold (handle_events initial pre).
  set (s0 := handle_events initial pre).
  fold (handle_events (snd (handle_event s0 ev)) post).
  destruct (touchpad_handle_events_output initial pre) as (Hp0 & Hl0 & _);
    [done|].
  fold s0 in Hp0, Hl0. cbn [initial stdout length Nat.add] in Hl0.
  pose proof (touchpad_handle_event_output s0 ev) as Hev. cbn zeta in Hev.
  rewrite (proj2 (Z.eqb_eq _ _) Hty) in Hev. destruct Hev as (_ & Hp1 & Ho1).
  destruct (touchpad_handle_events_output (snd (handle_event s0 ev)) post)
    as (_ & _ & more & Hm).
  { rewrite Hp1, Ho1, Hp0, length_app. cbn [length].
    rewrite Z.rem_mod_nonneg by lia. mod_lia. }
  rewrite Hm, Ho1, <- app_assoc, lookup_app_r by lia.
  rewrite Hl0, Nat.sub_diag. cbn [app lookup list_lookup]. f_equal. f_equal.
  rewrite Hp0, Hl0. unfold spinner.
  pose proof (Nat.mod_upper_bound (syn_count pre) 4) as Hlt.
  destruct (syn_count pre `mod` 4)%nat as [|[|[|[|n]]]]; [done..|lia].
Qed.
End TouchpadMore.

Lemma touchpad_progress_line_shows_bounds_so_far_witness :
  let s := TouchpadEdgeDetector.handle_events TouchpadEdgeDetector.initial
             ([abs_x 5; syn_at 10; abs_mt_y 7] ++ syn_at 20 :: [abs_x 9]) in
  length (TouchpadEdgeDetector.stdout s) = 2%nat
  /\ TouchpadEdgeDetector.stdout s !! 1%nat
     = Some {| TouchpadEdgeDetector.shown :=
                 TouchpadEdgeDetector.dim
                   (TouchpadEdgeDetector.handle_events
                      TouchpadEdgeDetector.initial
                      [abs_x 5; syn_at 10; abs_mt_y 7]);
               TouchpadEdgeDetector.shown_status := spinner 1 |}.
Proof.
  exact (touchpad_progress_line_shows_bounds_so_far
           [abs_x 5; syn_at 10; abs_mt_y 7] [abs_x 9] (syn_at 20) eq_refl).
Defined.

(** ** Timestamps, the summary and the bus names *)

Section MouseMisc.
Import MouseDpiTool.

(** X14.  On timestamps as the kernel delivers them, [tv2us] is the
    number of microseconds without wrap-around, and it orders events as
    their (seconds, microseconds) pairs do. *)
Theorem tv2us_orders_timestamps (a b : timeval) :
  timeval_normal a -> timeval_normal b ->
  tv2us a = tv_sec a * 1000000 + tv_usec a
  /\ (tv2us a < tv2us b <-> timeval_lt a b)
  /\ (tv2us a = tv2us b <-> a = b).
Proof.
  unfold timeval_normal, timeval_lt, tv2us, uint64_wrap.
  intros [Hsa Hua] [Hsb Hub].
  rewrite !Z.mod_small by lia.
  split; [done|]. split; [lia|].
  split; [|by intros ->].
  intros Heq. destruct a as [sa ua], b as [sb ub]. simpl in *.
  assert (sa = sb) as -> by nia. f_equal. lia.
Qed.

Lemma tv2us_orders_timestamps_witness :
  let a := {| tv_sec := 1700000000; tv_usec := 999999 |} in
  let b := {| tv_sec := 1700000001; tv_usec := 0 |} in
  tv2us a = tv_sec a * 1000000 + tv_usec a
  /\ (tv2us a < tv2us b <-> timeval_lt a b)
  /\ (tv2us a = tv2us b <-> a = b).
Proof.
  apply (tv2us_orders_timestamps
           {| tv_sec := 1700000000; tv_usec := 999999 |}
           {| tv_sec := 1700000001; tv_usec := 0 |});
    unfold timeval_normal; simpl; lia.
Defined.

(** X15.  For a distance whose absolute value is an [int],
    [print_summary] stores and prints the absolute value, prints one
    table row for each of the resolutions 400, 600, ..., 2400 (2500 itself
    is not reached) whose inch column is that absolute value divided by
    the resolution, and printing the summary a second time prints the
    same. *)
Theorem print_summary_table (ms : measurements) :
  Z.abs (distance ms) <= INT_MAX ->
  let '(ms', sm) := print_summary ms in
  distance ms' = Z.abs (distance ms)
  /\ sum_distance sm = Z.abs (distance ms)
  /\ sum_rows sm
     = (fun res => ((inject_Z (Z.abs (distance ms)) / inject_Z res)%Q, res))
         <$> [400; 600; 800; 1000; 1200; 1400; 1600; 1800; 2000; 2200; 2400]
  /\ snd (print_summary ms') = sm.
Proof.
  intros Hrange. unfold print_summary. cbn [distance frequency us sum_distance].
  assert (abs (distance ms) = Z.abs (distance ms)) as Habs.
  { apply int_wrap_small. unfold int_range, INT_MIN, INT_MAX in *. lia. }
  rewrite Habs.
  assert (abs (Z.abs (distance ms)) = Z.abs (distance ms)) as Habs2.
  { unfold abs. rewrite (Z.abs_eq (Z.abs _)) by apply Z.abs_nonneg.
    exact Habs. }
  rewrite Habs2. repeat split.
Qed.

Lemma print_summary_table_witness :
  let '(ms', sm) :=
    print_summary {| distance := -4000; frequency := Some 0%Q; us := 0 |} in
  distance ms' = 4000 /\ sum_distance sm = 4000.
Proof.
  pose proof (print_summary_table
                {| distance := -4000; frequency := Some 0%Q; us := 0 |}) as H.
  destruct (print_summary _) as [ms' sm].
  destruct H as (H1 & H2 & _); [vm_compute; discriminate|].
  exact (conj H1 H2).
Defined.
End MouseMisc.

Section BusNames.
Context `{buses : bus_codes}.

Lemma bus_codes_pairwise :
  BUS_PCI <> BUS_ISAPNP /\ BUS_PCI <> BUS_USB /\ BUS_PCI <> BUS_HIL
  /\ BUS_PCI <> BUS_BLUETOOTH /\ BUS_PCI <> BUS_VIRTUAL
  /\ BUS_ISAPNP <> BUS_USB /\ BUS_ISAPNP <> BUS_HIL
  /\ BUS_ISAPNP <> BUS_BLUETOOTH /\ BUS_ISAPNP <> BUS_VIRTUAL
  /\ BUS_USB <> BUS_HIL /\ BUS_USB <> BUS_BLUETOOTH /\ BUS_USB <> BUS_VIRTUAL
  /\ BUS_HIL <> BUS_BLUETOOTH /\ BUS_HIL <> BUS_VIRTUAL
  /\ BUS_BLUETOOTH <> BUS_VIRTUAL.
Proof.
  pose proof bus_codes_distinct as H.
  rewrite !NoDup_cons, !not_elem_of_cons in H.
  destruct_and!. repeat split; assumption.
Qed.

(** Case analysis on the [switch] of [bustype]. *)
Ltac bustype_cases :=
  unfold bustype;
  repeat match goal with
         | |- context [ ?b =? ?c ] => destruct (Z.eqb_spec b c)
         end.

(** X16.  [bustype] gives each of the six buses it knows a name of its
    own, and answers "unknown bus type" exactly for every other value. *)
Theorem bustype_names (b1 b2 : Z) :
  let known := [BUS_PCI; BUS_ISAPNP; BUS_USB; BUS_HIL; BUS_BLUETOOTH;
                BUS_VIRTUAL] in
  (bustype b1 = "unknown bus type" <-> b1 ∉ known)
  /\ (b1 ∈ known -> bustype b1 = bustype b2 -> b1 = b2).
Proof.
  pose proof bus_codes_pairwise as Hd. destruct_and!. cbn zeta.
  rewrite !elem_of_cons, elem_of_nil. split.
  - bustype_cases; (split; [try discriminate; intros _; tauto|]);
      intros Hn; try done; exfalso; apply Hn; tauto.
  - intros Hin.
    assert (bustype b1 <> "unknown bus type") as Hknown.
    { revert Hin. bustype_cases; try discriminate. tauto. }
    revert Hknown. bustype_cases; try discriminate; try congruence.
Qed.
End BusNames.

Lemma bustype_names_witness :
  bustype 3 = "usb" /\ (bustype 3 = bustype 5 -> 3 = 5).
Proof.
  split; [reflexivity|].
  apply (proj2 (bustype_names 3 5)). do 2 right. left.
Defined.

(** ** The wait loop on whole sessions *)

Section LoopMore.
Context `{codes : evdev_codes}.
Context {St : Type} (handle_event : St -> input_event -> Z * St).

Lemma mainloop_run_reads (s : St) (evs : list input_event) (e : input_event) :
  read_statuses_sane ->
  mainloop_run handle_event (AtRead s)
    ((NextEvent LIBEVDEV_READ_STATUS_SUCCESS <$> evs)
       ++ [NextEvent (- EAGAIN) e])
  = Some (AtPoll (handle_all handle_event s evs)).
Proof.
  intros (Hok & Hsync & Hne & Heagain). unfold handle_all. revert s.
  induction evs as [|ev evs IH]; intros s.
  - cbn [fmap list_fmap app mainloop_run mainloop_step].
    destruct (Z.eqb_spec (- EAGAIN) LIBEVDEV_READ_STATUS_SYNC); [lia|].
    rewrite Z.eqb_refl. cbn [negb andb].
    by destruct (Z.eqb_spec (- EAGAIN) LIBEVDEV_READ_STATUS_SUCCESS); [lia|].
  - cbn [fmap list_fmap app mainloop_run mainloop_step foldl].
    destruct (Z.eqb_spec LIBEVDEV_READ_STATUS_SUCCESS
                         LIBEVDEV_READ_STATUS_SYNC); [done|].
    destruct (Z.eqb_spec LIBEVDEV_READ_STATUS_SUCCESS (- EAGAIN)); [lia|].
    destruct (Z.ltb_spec LIBEVDEV_READ_STATUS_SUCCESS 0); [lia|].
    cbn [negb andb]. rewrite Z.eqb_refl. apply IH.
Qed.

Lemma mainloop_run_drain (s : St) (evs : list input_event) :
  read_statuses_sane ->
  mainloop_run handle_event (AtPoll s) (drain evs)
  = Some (AtPoll (handle_all handle_event s evs)).
Proof.
  intros Hsane. unfold drain. cbn [mainloop_run mainloop_step].
  change (1 =? 0) with false. change (0 =? 0) with true. cbn [negb].
  by apply mainloop_run_reads.
Qed.

Lemma mainloop_run_drains (s : St) (batches : list (list input_event)) :
  read_statuses_sane ->
  mainloop_run handle_event (AtPoll s) (concat (drain <$> batches))
  = Some (AtPoll (handle_all handle_event s (concat batches))).
Proof.
  intros Hsane. revert s. induction batches as [|evs batches IH]; intros s.
  - done.
  - cbn [fmap list_fmap concat]. rewrite mainloop_run_app.
    rewrite mainloop_run_drain by done. cbn [mbind option_bind].
    change (list_fmap _ _ drain batches) with (drain <$> batches).
    rewrite IH. unfold handle_all. by rewrite foldl_app.
Qed.

Lemma mainloop_handles_events_in_order_aux
    (s : St) (batches : list (list input_event)) :
  read_statuses_sane ->
  mainloop handle_event (session batches) s
  = Some (0, handle_all handle_event s (concat batches)).
Proof.
  intros Hsane. unfold mainloop, session.
  rewrite mainloop_run_app, mainloop_run_drains by done.
  reflexivity.
Qed.

(** X17.  Over a session in which the device is drained whenever it
    becomes readable and which the interrupt signal ends, [mainloop]
    hands every delivered event to the handler, in the order of delivery
    and exactly once, and returns 0. *)
Theorem mainloop_handles_events_in_order
    (s : St) (batches : list (list input_event)) :
  read_statuses_sane ->
  mainloop handle_event (session batches) s
  = Some (0, handle_all handle_event s (concat batches)).
Proof.
  intros Hsane. by apply mainloop_handles_events_in_order_aux.
Qed.

(** X18.  A read that fails with a negative status other than -EAGAIN
    ends the loop with 1, with the state as it was at that read; a read
    that returns -EAGAIN handles no event and goes back to waiting. *)
Theorem mainloop_read_error
    (s0 s : St) (pre post : list sysres) (rc : Z) (ev : input_event) :
  mainloop_run handle_event (AtPoll s0) pre = Some (AtRead s) ->
  rc < 0 ->
  (rc <> - EAGAIN ->
   mainloop handle_event (pre ++ NextEvent rc ev :: post) s0 = Some (1, s))
  /\ (rc = - EAGAIN ->
      rc <> LIBEVDEV_READ_STATUS_SYNC ->
      rc <> LIBEVDEV_READ_STATUS_SUCCESS ->
      mainloop_run handle_event (AtPoll s0) (pre ++ [NextEvent rc ev])
      = Some (AtPoll s)).
Proof.
  intros Hpre Hneg. split.
  - intros Hne. unfold mainloop. rewrite mainloop_run_app, Hpre.
    cbn [mbind option_bind mainloop_run mainloop_step].
    destruct (rc =? LIBEVDEV_READ_STATUS_SYNC).
    + by rewrite mainloop_run_returned.
    + rewrite (proj2 (Z.eqb_neq _ _) Hne), (proj2 (Z.ltb_lt _ _) Hneg).
      cbn [negb andb]. by rewrite mainloop_run_returned.
  - intros Heq Hsync Hok. rewrite mainloop_run_app, Hpre.
    cbn [mbind option_bind mainloop_run mainloop_step].
    rewrite (proj2 (Z.eqb_neq _ _) Hsync), (proj2 (Z.eqb_neq _ _) Hok).
    by rewrite (proj2 (Z.eqb_eq _ _) Heq).
Qed.

(** The loop returns 0 or 1 and nothing else. *)
Lemma mainloop_run_status (l : loop_state St) (script : list sysres)
    (rc : Z) (s : St) :
  (forall rc0 s0, l = Returned rc0 s0 -> rc0 = 0 \/ rc0 = 1) ->
  mainloop_run handle_event l script = Some (Returned rc s) ->
  rc = 0 \/ rc = 1.
Proof.
  revert l. induction script as [|r script IH]; intros l Hl.
  - cbn. intros [= ->]. by eapply Hl.
  - cbn [mainloop_run].
    destruct (mainloop_step handle_event l r) as [l'|] eqn:Hstep; [|done].
    apply IH. intros rc0 s0 ->.
    destruct l as [s1|s1|rc1 s1], r as [ret rev|rc2 ev2];
      cbn [mainloop_step] in Hstep;
      repeat match type of Hstep with
             | context [ if ?c then _ else _ ] => destruct c
             end;
      try discriminate; injection Hstep as [= <- <-];
      try (by left); try (by right); by eapply Hl.
Qed.

Lemma mainloop_status (script : list sysres) (s0 s : St) (rc : Z) :
  mainloop handle_event script s0 = Some (rc, s) -> rc = 0 \/ rc = 1.
Proof.
  unfold mainloop.
  destruct (mainloop_run handle_event (AtPoll s0) script)
    as [[s1|s1|rc1 s1]|] eqn:Hrun; try done.
  intros [= -> ->]. eapply mainloop_run_status; [|exact Hrun]. done.
Qed.
End LoopMore.

(** ** The whole process *)

Section ProcessMore.
Context `{codes : evdev_codes}.

Lemma good_argv_dec (argv : list string) :
  good_argv argv
  \/ ((Z.of_nat (length argv) <? 2) = true
      \/ ((Z.of_nat (length argv) <? 2) = false
          /\ starts_with_dash (default EmptyString (argv !! 1%nat)) = true)).
Proof.
  destruct argv as [|argv0 [|path rest]]; [right; by left..|].
  destruct (starts_with_dash path) eqn:Hdash.
  - right. right. split; [|done].
    apply Z.ltb_ge. cbn [length]. lia.
  - left. by exists argv0, path, rest.
Qed.

Lemma good_argv_steps (argv : list string) :
  good_argv argv ->
  (Z.of_nat (length argv) <? 2) = false
  /\ starts_with_dash (default EmptyString (argv !! 1%nat)) = false.
Proof.
  intros (argv0 & path & rest & -> & Hdash). split; [|done].
  apply Z.ltb_ge. cbn [length]. lia.
Qed.

(** X19.  Both tools check the command line before touching any device:
    with no device argument, or with one that starts with '-', [main]
    prints the usage text and returns 1 without opening anything. *)
Theorem main_usage_without_device_path (argv : list string) (d : device) :
  ~ good_argv argv ->
  MouseDpiTool.main argv d = Return 1 [c_usage]
  /\ TouchpadEdgeDetector.main argv d = Return 1 [c_usage].
Proof.
  intros Hbad.
  destruct (good_argv_dec argv) as [Hgood|[Hshort|[Hlen Hdash]]]; [done|..];
    unfold MouseDpiTool.main, TouchpadEdgeDetector.main.
  - by rewrite Hshort.
  - by rewrite Hlen, Hdash.
Qed.

(** X20.  When either tool returns, its exit status is 0 or 1. *)
Theorem main_exit_status_zero_or_one
    (argv : list string) (d : device) (status : Z) :
  exit_status (MouseDpiTool.main argv d) = Some status
  \/ exit_status (TouchpadEdgeDetector.main argv d) = Some status ->
  status = 0 \/ status = 1.
Proof.
  intros [Hm|Ht].
  - revert Hm. unfold MouseDpiTool.main.
    destruct (_ <? 2); [intros [= <-]; by right|].
    destruct (starts_with_dash _); [intros [= <-]; by right|].
    destruct (open_fd d <? 0); [intros [= <-]; by right|].
    destruct (negb (new_from_fd_rc d =? 0)); [intros [= <-]; by right|].
    destruct (negb (grab_rc d =? 0)); [intros [= <-]; by right|].
    run_main.
    destruct (mainloop _ _ _) as [[rc s]|] eqn:Hloop; [|done].
    intros [= <-]. by eapply mainloop_status.
  - revert Ht. unfold TouchpadEdgeDetector.main.
    destruct (_ <? 2); [intros [= <-]; by right|].
    destruct (starts_with_dash _); [intros [= <-]; by right|].
    destruct (open_fd d <? 0); [intros [= <-]; by right|].
    destruct (negb (new_from_fd_rc d =? 0)); [intros [= <-]; by right|].
    destruct (negb (grab_rc d =? 0)); [intros [= <-]; by right|].
    destruct (_ || _); [intros [= <-]; by right|].
    run_main.
    destruct (mainloop _ _ _) as [[rc s]|] eqn:Hloop; [|done].
    intros [= <-]. by eapply mainloop_status.
Qed.

(** Evaluation of the resource predicates on a log. *)
Ltac eval_leaks :=
  cbv [outcome_log fd_leaked handle_leaked opened closed allocated freed
       existsb orb andb negb].

(** X21.  When either tool returns, the descriptor is left open exactly
    when the device was opened but the device information or the grab
    failed, and the libevdev handle is left allocated exactly when it was
    created but the grab failed.  Every other path, the missing-axes path
    of the touchpad tool included, releases what it acquired. *)
Theorem main_leaks_exactly_on_probe_failure (argv : list string) (d : device) :
  let leaks_fd :=
    good_argv argv /\ 0 <= open_fd d
    /\ (new_from_fd_rc d <> 0 \/ grab_rc d <> 0) in
  let leaks_handle :=
    good_argv argv /\ 0 <= open_fd d
    /\ new_from_fd_rc d = 0 /\ grab_rc d <> 0 in
  (is_Some (exit_status (MouseDpiTool.main argv d)) ->
   (fd_leaked (outcome_log (MouseDpiTool.main argv d)) = true <-> leaks_fd)
   /\ (handle_leaked (outcome_log (MouseDpiTool.main argv d)) = true
       <-> leaks_handle))
  /\ (is_Some (exit_status (TouchpadEdgeDetector.main argv d)) ->
      (fd_leaked (outcome_log (TouchpadEdgeDetector.main argv d)) = true
       <-> leaks_fd)
      /\ (handle_leaked (outcome_log (TouchpadEdgeDetector.main argv d)) = true
          <-> leaks_handle)).
Proof.
  cbn zeta.
  destruct (good_argv_dec argv) as [Hgood|Hbad].
  - destruct (good_argv_steps argv Hgood) as [Hlen Hdash].
    unfold MouseDpiTool.main, TouchpadEdgeDetector.main.
    rewrite Hlen, Hdash.
    destruct (Z.ltb_spec (open_fd d) 0) as [Hfd|Hfd].
    { split; intros _; run_main; eval_leaks;
        rewrite (proj2 (Z.leb_gt _ _) Hfd);
        split; split; try discriminate; intros (_ & ? & _); lia. }
    destruct (Z.eqb_spec (new_from_fd_rc d) 0) as [Hnew|Hnew]; cbn [negb].
    2:{ split; intros _; run_main; eval_leaks;
          rewrite (proj2 (Z.leb_le _ _) Hfd),
            (proj2 (Z.eqb_neq _ _) Hnew);
          split; split; try discriminate; try tauto;
          intros (_ & _ & ? & _); done. }
    destruct (Z.eqb_spec (grab_rc d) 0) as [Hgrab|Hgrab]; cbn [negb].
    2:{ split; intros _; run_main; eval_leaks;
          rewrite (proj2 (Z.leb_le _ _) Hfd),
            (proj2 (Z.eqb_eq _ _) Hnew);
          split; split; try discriminate; tauto. }
    split.
    + run_main. destruct (mainloop _ _ _) as [[rc s]|]; [|by intros [? [=]]].
      intros _. unfold MouseDpiTool.print_summary. run_main. eval_leaks.
      rewrite (proj2 (Z.leb_le _ _) Hfd), (proj2 (Z.eqb_eq _ _) Hnew).
      split; split; try discriminate; intros (_ & _ & H); tauto.
    + destruct (_ || _).
      * intros _. run_main. eval_leaks.
        rewrite (proj2 (Z.leb_le _ _) Hfd), (proj2 (Z.eqb_eq _ _) Hnew).
        split; split; try discriminate; intros (_ & _ & H); tauto.
      * run_main.
        destruct (mainloop _ _ _) as [[rc s]|]; [|by intros [? [=]]].
        intros _. run_main. eval_leaks.
        rewrite (proj2 (Z.leb_le _ _) Hfd), (proj2 (Z.eqb_eq _ _) Hnew).
        split; split; try discriminate; intros (_ & _ & H); tauto.
  - assert (~ good_argv argv) as Hnot.
    { intros Hgood. destruct (good_argv_steps argv Hgood) as [Hlen Hdash].
      destruct Hbad as [Hshort|[_ Hd]]; congruence. }
    assert (MouseDpiTool.main argv d = Return 1 [c_usage]
            /\ TouchpadEdgeDetector.main argv d = Return 1 [c_usage])
      as [-> ->].
    { unfold MouseDpiTool.main, TouchpadEdgeDetector.main.
      destruct Hbad as [->|[-> ->]]; done. }
    split; intros _; run_main; eval_leaks; split; split; try discriminate; tauto.
Qed.
End ProcessMore.

Lemma main_usage_without_device_path_witness :
  MouseDpiTool.main ["tool"; "-h"] busy_device = Return 1 [c_usage]
  /\ TouchpadEdgeDetector.main ["tool"; "-h"] busy_device
     = Return 1 [c_usage].
Proof.
  apply (main_usage_without_device_path ["tool"; "-h"] busy_device).
  intros (argv0 & path & rest & [= <- <- <-] & Hdash). discriminate Hdash.
Defined.

Lemma main_exit_status_zero_or_one_witness : 1 = 0 \/ 1 = 1.
Proof.
  apply (main_exit_status_zero_or_one example_argv desync_device 1).
  left. reflexivity.
Defined.

Lemma main_leaks_exactly_on_probe_failure_witness :
  fd_leaked (outcome_log (TouchpadEdgeDetector.main example_argv
                            relative_device)) = true
  <-> good_argv example_argv /\ 0 <= open_fd relative_device
      /\ (new_from_fd_rc relative_device <> 0 \/ grab_rc relative_device <> 0).
Proof.
  apply (proj2 (main_leaks_exactly_on_probe_failure example_argv
                  relative_device)).
  vm_compute. by eexists.
Defined.

Section CleanSession.
Context `{codes : evdev_codes}.


(** X23.  A clean run of the touchpad tool on a device with both
    absolute axes: the events are handled in order, the suggested rule
    is printed with the bounds reached, the handle is freed, the
    descriptor closed, and [main] returns 0. *)
Theorem touchpad_main_clean_session
    (argv : list string) (d : device) (batches : list (list input_event)) :
  good_argv argv ->
  good_device d ->
  has_event_code d EV_ABS ABS_X = true ->
  has_event_code d EV_ABS ABS_Y = true ->
  read_statuses_sane ->
  script d = session batches ->
  let dm := TouchpadEdgeDetector.dim
              (TouchpadEdgeDetector.handle_events
                 TouchpadEdgeDetector.initial (concat batches)) in
  TouchpadEdgeDetector.main argv d
  = Return 0
      [c_open (open_fd d); c_libevdev_new_from_fd 0; c_libevdev_grab 0;
       c_libevdev_ungrab; c_stdout "Touchpad on path"; c_mainloop;
       c_udev_rule (TouchpadEdgeDetector.left dm)
                   (TouchpadEdgeDetector.right dm)
                   (TouchpadEdgeDetector.top dm)
                   (TouchpadEdgeDetector.bottom dm);
       c_libevdev_free; c_close (open_fd d)].
Proof.
  intros Hargv (Hfd & Hnew & Hgrab) Hx Hy Hsane Hscript dm.
  destruct (good_argv_steps argv Hargv) as [Hlen Hdash].
  unfold TouchpadEdgeDetector.main. rewrite Hlen, Hdash, Hnew, Hgrab, Hx, Hy.
  rewrite (proj2 (Z.ltb_ge _ _) Hfd). cbn [Z.eqb negb orb].
  run_main. rewrite Hscript, mainloop_handles_events_in_order_aux by done.
  reflexivity.
Qed.
End CleanSession.


Lemma touchpad_main_clean_session_witness :
  exists log,
    TouchpadEdgeDetector.main example_argv
      {| open_fd := 3; new_from_fd_rc := 0; grab_rc := 0;
         has_event_code := fun _ _ => true;
         script := session [[abs_x 5; abs_mt_y 9; syn_at 1000]; [abs_x 2]] |}
    = Return 0 log
    /\ c_udev_rule 2 5 9 9 ∈ log.
Proof.
  eexists. split.
  - apply (touchpad_main_clean_session example_argv
             {| open_fd := 3; new_from_fd_rc := 0; grab_rc := 0;
                has_event_code := fun _ _ => true;
                script :=
                  session [[abs_x 5; abs_mt_y 9; syn_at 1000]; [abs_x 2]] |}
             [[abs_x 5; abs_mt_y 9; syn_at 1000]; [abs_x 2]]).
    + by exists "tool"%string, "/dev/input/event0"%string, [].
    + repeat split; vm_compute; congruence.
    + reflexivity.
    + reflexivity.
    + repeat split; vm_compute; congruence.
    + reflexivity.
  - do 6 right. left.
Defined.

(** ** A device that reports at a constant rate *)

Section SteadyStream.
Import MouseDpiTool.
Context `{codes : evdev_codes}.

Lemma arithmetic_length (t delta : Z) (k : nat) :
  length (arithmetic t delta k) = k.
Proof. revert t. induction k as [|k IH]; intros t; simpl; [done|]. by rewrite IH. Qed.

Lemma arithmetic_snoc (t delta : Z) (k : nat) :
  arithmetic t delta (S k)
  = arithmetic t delta k ++ [t + delta * Z.of_nat (S k)].
Proof.
  revert t. induction k as [|k IH]; intros t.
  - simpl. f_equal. lia.
  - change (arithmetic t delta (S (S k)))
      with ((t + delta) :: arithmetic (t + delta) delta (S k)).
    rewrite IH. cbn [arithmetic app]. do 2 f_equal. f_equal. lia.
Qed.

Lemma arithmetic_drop (t delta : Z) (k j : nat) :
  drop j (arithmetic t delta k)
  = arithmetic (t + delta * Z.of_nat j) delta (k - j).
Proof.
  revert t k. induction j as [|j IH]; intros t k.
  - rewrite drop_0, Nat.sub_0_r. f_equal. lia.
  - destruct k as [|k]; [done|].
    cbn [arithmetic drop]. rewrite IH. cbn [Nat.sub]. f_equal. lia.
Qed.

Lemma arithmetic_adjacent (R : Z -> Z -> bool) (t delta : Z) (k : nat) :
  (forall x, R x (x + delta) = true) ->
  adjacent_all R (arithmetic t delta k) = true.
Proof.
  intros HR. revert t. induction k as [|k IH]; intros t; [done|].
  destruct k as [|k]; [done|].
  change (arithmetic t delta (S (S k)))
    with ((t + delta) :: (t + delta + delta)
            :: arithmetic (t + delta + delta) delta k).
  cbn [adjacent_all]. rewrite HR. apply (IH (t + delta)).
Qed.

Lemma get_frequency_arithmetic (t delta : Z) :
  0 < delta ->
  get_frequency (arithmetic t delta EVENT_SIZ)
  = Some (1000000 / inject_Z delta)%Q.
Proof.
  intros Hpos. set (w := arithmetic t delta EVENT_SIZ).
  assert (length w = EVENT_SIZ) as Hlen by apply arithmetic_length.
  assert (strictly_increasing w = true) as Hinc.
  { apply arithmetic_adjacent. intros x. apply Z.ltb_lt. lia. }
  assert (spaced_by delta w = true) as Hsp.
  { apply arithmetic_adjacent. intros x. apply Z.eqb_eq. lia. }
  clearbody w.
  pose proof (strictly_increasing_adjacent w Hlen Hinc) as Hadj.
  pose proof (ring_differences_increasing_length w Hadj) as Hrl.
  destruct (qsort_cells_lookup_Forall double_cmp (fun d => d = delta)
              (ring_differences w) (EVENT_SIZ / 2)) as (d & Hd & ->).
  - rewrite ring_differences_increasing by done.
    apply Forall_fmap, Forall_forall. intros i Hi. simpl.
    apply elem_of_seq in Hi. apply Z.eqb_eq.
    apply (adjacent_all_lookup (fun x y => y - x =? delta)); [exact Hsp|].
    rewrite Hlen. lia.
  - rewrite Hrl. unfold EVENT_SIZ. simpl. lia.
  - rewrite get_frequency_spec, take_ge by lia. by rewrite Hd.
Qed.

Lemma syn_times_cons (ev : input_event) (evs : list input_event) :
  syn_times (ev :: evs)
  = (if type ev =? EV_SYN then [tv2us (time ev)] else []) ++ syn_times evs.
Proof.
  unfold syn_times. cbn [List.filter]. by destruct (type ev =? EV_SYN).
Qed.

Lemma syn_times_snoc (evs : list input_event) (ev : input_event) :
  syn_times (evs ++ [ev])
  = syn_times evs ++ (if type ev =? EV_SYN then [tv2us (time ev)] else []).
Proof.
  unfold syn_times. rewrite List.filter_app, fmap_app. cbn [List.filter].
  by destruct (type ev =? EV_SYN).
Qed.

Lemma no_idle_reset_arithmetic
    (t delta : Z) (k : nat) (evs : list input_event) :
  0 <= t -> 0 < delta <= 3000000 ->
  t + delta * Z.of_nat k + 3000000 < 2 ^ 64 ->
  syn_times evs = arithmetic t delta k ->
  no_idle_reset t evs = true.
Proof.
  intros Ht Hd. revert t k Ht.
  induction evs as [|ev evs IH]; intros t k Ht Hrange Hts; [done|].
  rewrite syn_times_cons in Hts. cbn [no_idle_reset].
  destruct (type ev =? EV_SYN).
  - destruct k as [|k]; [done|]. cbn [app arithmetic] in Hts.
    injection Hts as Hnow Hts. rewrite Hnow.
    unfold uint64_wrap. rewrite Z.mod_small by lia.
    rewrite (proj2 (Z.ltb_ge _ _)) by lia. cbn [negb andb].
    apply (IH _ k); [lia|lia|done].
  - by apply (IH _ k).
Qed.

Lemma arithmetic_below (t delta bound : Z) (k : nat) :
  0 <= delta -> t + delta * Z.of_nat k < bound ->
  Forall (fun x => x < bound) (arithmetic t delta k).
Proof.
  intros Hd. revert t. induction k as [|k IH]; intros t Hk; [constructor|].
  cbn [arithmetic]. constructor; [nia|]. apply IH. lia.
Qed.

Lemma Qle_bool_frequency (delta : Z) :
  0 < delta -> Qle_bool (1000000 / inject_Z delta) 0 = false.
Proof. destruct delta; [lia|done|lia]. Qed.

(** The state after a steady stream: the last timestamp and the peak. *)
Lemma steady_stream_state
    (s : state) (t delta : Z) (evs : list input_event) (k : nat) :
  length (event_times s) = EVENT_SIZ ->
  event_times_index s = 0%nat ->
  event_list_valid s = false ->
  frequency (m s) = Some 0%Q ->
  us (m s) = t ->
  0 <= t -> 0 < delta <= 3000000 ->
  t + delta * Z.of_nat k < 2 ^ 53 ->
  syn_times evs = arithmetic t delta k ->
  let s' := handle_events s evs in
  us (m s') = t + delta * Z.of_nat k
  /\ frequency (m s')
     = if (k <? EVENT_SIZ)%nat then Some 0%Q
       else Some (1000000 / inject_Z delta)%Q.
Proof.
  intros Hlen Hidx Hvalid Hfreq Hus Ht Hd. revert k.
  induction evs as [|ev evs IH] using rev_ind; intros k Hrange Hts.
  { destruct k; [|done]. cbn. split; [lia|done]. }
  assert (t + delta * Z.of_nat k + 3000000 < 2 ^ 64) as Hrange64 by lia.
  pose proof (no_idle_reset_arithmetic t delta k _ Ht Hd Hrange64 Hts)
    as Hkeep.
  rewrite <- Hus in Hkeep.
  assert (event_times_index s < EVENT_SIZ)%nat as Hidx'
    by (rewrite Hidx; unfold EVENT_SIZ; lia).
  pose proof (handle_events_ring s (evs ++ [ev]) Hlen Hidx' Hkeep) as Hring.
  cbn zeta in Hring. destruct Hring as (_ & Hv & _).
  pose proof (fun H => window_estimate s (evs ++ [ev]) Hlen Hidx' Hkeep H)
    as Hest.
  rewrite syn_count_times, Hts, arithmetic_length in Hv, Hest.
  rewrite Hvalid, Hidx in Hv. cbn [orb Nat.add] in Hv.
  rewrite arithmetic_drop in Hest.
  rewrite syn_times_snoc in Hts.
  unfold handle_events in *. rewrite foldl_app in *. cbn [foldl] in *.
  fold (handle_events s evs) in *. set (s1 := handle_events s evs) in *.
  destruct (Z.eqb_spec (type ev) EV_SYN) as [Hty|Hty].
  - destruct k as [|k];
      [by apply (f_equal length) in Hts; rewrite length_app in Hts;
          cbn in Hts; lia|].
    rewrite arithmetic_snoc in Hts. apply app_inj_tail in Hts as [Hts Hnow].
    destruct (IH k) as [Hus1 Hf1]; [lia|done|].
    destruct (handle_event_syn_keep s1 ev Hty) as (_ & Hus' & _ & _ & _ & Hf & _).
    { rewrite Hus1, Hnow. unfold uint64_wrap. rewrite Z.mod_small; lia. }
    split; [by rewrite Hus', Hnow|].
    rewrite Hf, Hv.
    destruct (Nat.leb_spec EVENT_SIZ (S k)) as [Hfull|Hpart].
    + rewrite (proj2 (Nat.ltb_ge _ _)) by done.
      rewrite Hest; [|done|apply arithmetic_below; nia].
      replace (S k - (S k - EVENT_SIZ))%nat with EVENT_SIZ by lia.
      rewrite get_frequency_arithmetic by lia. rewrite Hf1.
      destruct (k <? EVENT_SIZ)%nat; cbn [dmax].
      * by rewrite Qle_bool_frequency by lia.
      * by destruct (Qle_bool _ _).
    + rewrite (proj2 (Nat.ltb_lt _ _)) by done.
      rewrite Hf1. by rewrite (proj2 (Nat.ltb_lt _ _)) by lia.
  - rewrite app_nil_r in Hts. destruct (IH k Hrange Hts) as [Hus1 Hf1].
    destruct (handle_event_other s1 ev Hty) as [(-> & -> & _)|[_ ->]]; done.
Qed.

(** X24.  After an idle reset at time [t], a device that then reports
    every [delta] microseconds (at most 3,000,000, so that no further
    reset occurs), with all its timestamps below 2^53 so that the window
    holds them unrounded, is measured at 1,000,000 / delta Hz as soon as
    32 reports have arrived, and the peak stays there, whatever other
    events are delivered in between. *)
Theorem steady_stream_frequency
    (s : state) (t delta : Z) (evs : list input_event) (k : nat) :
  length (event_times s) = EVENT_SIZ ->
  event_times_index s = 0%nat ->
  event_list_valid s = false ->
  frequency (m s) = Some 0%Q ->
  us (m s) = t ->
  0 <= t -> 0 < delta <= 3000000 ->
  t + delta * Z.of_nat k < 2 ^ 53 ->
  syn_times evs = arithmetic t delta k ->
  (EVENT_SIZ <= k)%nat ->
  frequency (m (handle_events s evs)) = Some (1000000 / inject_Z delta)%Q.
Proof.
  intros Hlen Hidx Hvalid Hfreq Hus Ht Hd Hrange Hts Hk.
  destruct (steady_stream_state s t delta evs k) as [_ Hf]; try done.
  rewrite Hf. by rewrite (proj2 (Nat.ltb_ge _ _)) by done.
Qed.
End SteadyStream.

Lemma steady_stream_frequency_witness :
  MouseDpiTool.frequency
    (MouseDpiTool.m
       (MouseDpiTool.handle_events MouseDpiTool.initial steady_events))
  = Some (1000000 / inject_Z 1000)%Q.
Proof.
  apply (steady_stream_frequency MouseDpiTool.initial 0 1000 steady_events 40);
    try reflexivity; try (vm_compute; lia); lia.
Defined.

(** ** Witnesses on concrete runs *)

Lemma double_cmp_three_way_witness :
  MouseDpiTool.double_cmp 1 3 <= 0.
Proof.
  destruct (double_cmp_three_way 1 2 3) as (_ & _ & _ & _ & Htrans).
  apply Htrans; vm_compute; discriminate.
Defined.

Lemma mainloop_handles_events_in_order_witness :
  mainloop MouseDpiTool.handle_event
    (session [[rel_x 5; syn_at 1000]; [rel_x (-12)]]) MouseDpiTool.initial
  = Some (0, handle_all MouseDpiTool.handle_event MouseDpiTool.initial
               [rel_x 5; syn_at 1000; rel_x (-12)]).
Proof.
  apply (mainloop_handles_events_in_order MouseDpiTool.handle_event
           MouseDpiTool.initial [[rel_x 5; syn_at 1000]; [rel_x (-12)]]).
  repeat split; vm_compute; congruence.
Defined.

Lemma mainloop_read_error_witness :
  mainloop MouseDpiTool.handle_event
    ([PollRet 1 0] ++ NextEvent (-5) (rel_x 0) :: [NextEvent 0 (rel_x 9)])
    MouseDpiTool.initial
  = Some (1, MouseDpiTool.initial)
  /\ mainloop_run MouseDpiTool.handle_event (AtPoll MouseDpiTool.initial)
       ([PollRet 1 0] ++ [NextEvent (-11) (rel_x 0)])
     = Some (AtPoll MouseDpiTool.initial).
Proof.
  split.
  - apply (proj1 (mainloop_read_error MouseDpiTool.handle_event
                    MouseDpiTool.initial MouseDpiTool.initial [PollRet 1 0]
                    [NextEvent 0 (rel_x 9)] (-5) (rel_x 0) eq_refl eq_refl)).
    vm_compute. discriminate.
  - apply (proj2 (mainloop_read_error MouseDpiTool.handle_event
                    MouseDpiTool.initial MouseDpiTool.initial [PollRet 1 0]
                    [] (-11) (rel_x 0) eq_refl eq_refl));
      vm_compute; congruence.
Defined.
